(** * Task lifecycle of the speech-to-text worker and the agent registry

    A shallow embedding of the Node.js transcription worker
    (controllers/taskController.js, utils/fileHandler.js,
    services/videoProcessor.js, models/Task.js) and of the agent registry's
    upsert, together with the properties the specification states about them
    and further properties of the same code: the two read handlers, the
    invariants of a run, and the stages one by one.

    Asynchronous code is embedded as a state-and-exception monad over an
    explicit [World] (task collection, file system, event trace).  Everything
    the worker cannot decide by itself -- whether a store call rejects, what
    the HTTP server answers, what ffmpeg and the transcription API return --
    is read from an [Env], so a theorem quantified over [Env] holds for every
    behaviour of the collaborators. *)

From Stdlib Require Import String Ascii List ZArith Bool Lia DecimalString Sorted.
From stdpp Require Import gmap strings list.

Local Open Scope string_scope.
Local Open Scope Z_scope.
Local Open Scope nat_scope.

(** ** JavaScript values *)

Inductive Value :=
| VUndefined
| VNull
| VBool (b : bool)
| VNum (z : Z)
| VStr (s : string)
| VStream (path : string)      (* fs.createReadStream(path) *)
| VObject.                     (* any other object or array *)

(** An object literal, keys in source order. *)
Definition JsObject := list (string * Value).

Fixpoint get_field (k : string) (o : JsObject) : Value :=
  match o with
  | [] => VUndefined
  | (k', v) :: o' => if String.eqb k k' then v else get_field k o'
  end.

Fixpoint has_field (k : string) (o : JsObject) : bool :=
  match o with
  | [] => false
  | (k', _) :: o' => String.eqb k k' || has_field k o'
  end.

(** ToBoolean: what [if (v)] and [!v] test. *)
Definition truthy (v : Value) : bool :=
  match v with
  | VUndefined | VNull => false
  | VBool b => b
  | VNum z => negb (Z.eqb z 0)
  | VStr s => negb (String.eqb s "")
  | VStream _ | VObject => true
  end.

Definition show_Z (z : Z) : string := NilZero.string_of_int (Z.to_int z).

(** ** Strings and paths *)

Definition is_space (c : ascii) : bool :=
  let n := nat_of_ascii c in Nat.eqb n 32 || (Nat.leb 9 n && Nat.leb n 13).

Fixpoint trim_start (s : string) : string :=
  match s with
  | EmptyString => EmptyString
  | String c s' => if is_space c then trim_start s' else s
  end.

Fixpoint trim_end (s : string) : string :=
  match s with
  | EmptyString => EmptyString
  | String c s' =>
      match trim_end s' with
      | EmptyString => if is_space c then EmptyString else String c EmptyString
      | r => String c r
      end
  end.

(** String.prototype.trim, on the ASCII white space characters. *)
Definition trim (s : string) : string := trim_end (trim_start s).

Definition starts_with (pre s : string) : bool := String.prefix pre s.

Definition ends_with (suf s : string) : bool :=
  Nat.leb (String.length suf) (String.length s)
  && String.eqb (substring (String.length s - String.length suf) (String.length suf) s) suf.

(** path.join on a directory and a plain name. *)
Definition path_join (dir name : string) : string := dir +:+ "/" +:+ name.

(** [q] is [p] itself or lies below the directory [p]. *)
Definition at_or_under (p q : string) : bool :=
  String.eqb q p || String.prefix (p +:+ "/") q.

(** Array.prototype.sort() on strings (code-unit order), as an insertion sort. *)
Fixpoint insert_sorted (x : string) (l : list string) : list string :=
  match l with
  | [] => [x]
  | y :: l' => if String.leb x y then x :: l else y :: insert_sorted x l'
  end.

Definition js_sort (l : list string) : list string := foldr insert_sorted [] l.

(** ** Exceptions and the effect monad *)

Inductive Stage := Download | ExtractAudio | SplitAudio | Transcribe.

(** Which call an exception came out of.  JavaScript errors carry this in
    their stack; [processVideoTask] only reads the message. *)
Inductive Origin :=
| InStore                 (* a rejected Mongoose call *)
| InFs                    (* a rejected fs-extra call *)
| InStage (s : Stage)     (* the call of a pipeline stage *)
| InController.           (* a [throw new Error] of the controller itself *)

Record JsError := mkError { message : string; origin : Origin }.

Inductive Completion (A : Type) :=
| Normal (a : A)
| Throw (e : JsError).
Arguments Normal {A} a.
Arguments Throw {A} e.

Definition M (S A : Type) : Type := S -> Completion A * S.

Definition ret {S A} (a : A) : M S A := fun s => (Normal a, s).

Definition bind {S A B} (m : M S A) (k : A -> M S B) : M S B :=
  fun s => match m s with
           | (Normal a, s') => k a s'
           | (Throw e, s') => (Throw e, s')
           end.

Definition throw {S A} (e : JsError) : M S A := fun s => (Throw e, s).

(** try { body } catch (e) { handler e } *)
Definition try_catch {S A} (body : M S A) (handler : JsError -> M S A) : M S A :=
  fun s => match body s with
           | (Normal a, s') => (Normal a, s')
           | (Throw e, s') => handler e s'
           end.

(** try { body } finally { fin }: [fin] runs on both completions, and a
    throw out of [fin] replaces the completion of [body]. *)
Definition try_finally {S A} (body : M S A) (fin : M S unit) : M S A :=
  fun s => match body s with
           | (c, s') =>
               match fin s' with
               | (Normal _, s'') => (c, s'')
               | (Throw e, s'') => (Throw e, s'')
               end
           end.

(** promise.catch(e => console.error(...)): a rejection is logged and dropped. *)
Definition catch_and_log {S A} (m : M S A) : M S unit :=
  try_catch (bind m (fun _ => ret tt)) (fun _ => ret tt).

Definition modify {S} (f : S -> S) : M S unit := fun s => (Normal tt, f s).
Definition gets {S A} (f : S -> A) : M S A := fun s => (Normal (f s), s).

Notation "'let*' x ':=' m 'in' k" := (bind m (fun x => k))
  (at level 10, x name, m at level 100, k at level 200).
Notation "m '>>' k" := (bind m (fun _ => k))
  (at level 100, k at level 200, right associativity).

(** ** The Task model (models/Task.js) *)

Definition PENDING := "PENDING".
Definition DOWNLOADING := "DOWNLOADING".
Definition EXTRACTING_AUDIO := "EXTRACTING_AUDIO".
Definition TRANSCRIBING := "TRANSCRIBING".
Definition DONE := "DONE".
Definition FAILED := "FAILED".

(** The [enum] of the [status] path, in source order. *)
Definition status_enum : list string :=
  [PENDING; DOWNLOADING; EXTRACTING_AUDIO; TRANSCRIBING; DONE; FAILED].

(** A document of [taskSchema]: one field per schema path. *)
Record Task := mkTask {
  _id : string;
  url : option string;            (* required *)
  status : string;                (* default 'PENDING' *)
  text : option string;           (* default null *)
  errorMessage : option string;   (* default null *)
  createdAt : nat;
  updatedAt : nat
}.

(** The paths declared by [taskSchema]. *)
Definition schema_paths : list string :=
  ["_id"; "url"; "status"; "text"; "errorMessage"; "createdAt"; "updatedAt"].

(** Casting a value to a path of type String; [None] when the value is not
    one the worker ever writes. *)
Definition cast_string (v : Value) : option (option string) :=
  match v with
  | VStr s => Some (Some s)
  | VNull => Some None
  | _ => None
  end.

(** Setting one path of a document.  [taskSchema] is built by
    [new mongoose.Schema({...})] with no options, so Mongoose's default strict
    mode applies: a key that is not a schema path is dropped, both by
    [new Task(obj)] and by [findByIdAndUpdate].  The controller writes the
    keys [videoUrl] and [transcript]; the schema declares [url] and [text]. *)
Definition set_path (k : string) (v : Value) (t : Task) : Task :=
  if String.eqb k "url" then
    match cast_string v with
    | Some u => mkTask (_id t) u (status t) (text t) (errorMessage t) (createdAt t) (updatedAt t)
    | None => t
    end
  else if String.eqb k "status" then
    match v with
    | VStr s => mkTask (_id t) (url t) s (text t) (errorMessage t) (createdAt t) (updatedAt t)
    | _ => t
    end
  else if String.eqb k "text" then
    match cast_string v with
    | Some x => mkTask (_id t) (url t) (status t) x (errorMessage t) (createdAt t) (updatedAt t)
    | None => t
    end
  else if String.eqb k "errorMessage" then
    match cast_string v with
    | Some x => mkTask (_id t) (url t) (status t) (text t) x (createdAt t) (updatedAt t)
    | None => t
    end
  else if String.eqb k "_id" then
    match v with
    | VStr s => mkTask s (url t) (status t) (text t) (errorMessage t) (createdAt t) (updatedAt t)
    | _ => t
    end
  else t.

Definition set_paths (o : JsObject) (t : Task) : Task :=
  fold_left (fun acc kv => set_path (fst kv) (snd kv) acc) o t.

Definition touch (now : nat) (t : Task) : Task :=
  mkTask (_id t) (url t) (status t) (text t) (errorMessage t) (createdAt t) now.

(** [new Task(obj)]: schema defaults, then the keys of [obj] that are paths. *)
Definition new_Task (uuid : string) (now : nat) (obj : JsObject) : Task :=
  set_paths obj (mkTask uuid None PENDING None None now now).

(** Validation run by [save()]: [url] is required, [status] must be in the enum. *)
Definition validate (t : Task) : option string :=
  match url t with
  | None | Some "" => Some "Task validation failed: url: Path `url` is required."
  | Some _ =>
      if existsb (String.eqb (status t)) status_enum then None
      else Some "Task validation failed: status: not a valid enum value."
  end.

(** ** The world *)

Inductive UpdateResult := Applied | NotFound | Rejected.

Inductive Event :=
| EvSave (id : string) (saved : bool)
| EvUpdate (id : string) (upd : JsObject) (res : UpdateResult)
| EvRequest (client : string) (options : JsObject)   (* an outbound network call *)
| EvCleanupFiles (paths : list Value)
| EvCleanupChunks (taskId : string).

Record World := mkWorld {
  tasks : gmap string Task;      (* the Task collection, keyed by _id *)
  files : gset string;           (* the paths that exist on disk *)
  clock : nat;                   (* Date.now() *)
  dbCalls : nat;                 (* Mongoose calls issued so far *)
  fsCalls : nat;                 (* fs-extra calls issued so far *)
  trace : list Event             (* oldest first *)
}.

Definition set_tasks (f : gmap string Task -> gmap string Task) (w : World) : World :=
  mkWorld (f (tasks w)) (files w) (clock w) (dbCalls w) (fsCalls w) (trace w).
Definition set_files (f : gset string -> gset string) (w : World) : World :=
  mkWorld (tasks w) (f (files w)) (clock w) (dbCalls w) (fsCalls w) (trace w).
Definition tick_db (w : World) : World :=
  mkWorld (tasks w) (files w) (S (clock w)) (S (dbCalls w)) (fsCalls w) (trace w).
Definition tick_fs (w : World) : World :=
  mkWorld (tasks w) (files w) (clock w) (dbCalls w) (S (fsCalls w)) (trace w).
Definition emit (e : Event) (w : World) : World :=
  mkWorld (tasks w) (files w) (clock w) (dbCalls w) (fsCalls w) (trace w ++ [e]).

(** ** The environment *)

Record Config := mkConfig {
  tempDir : string;
  downloadTimeout : Z;
  groqApiKey : option string     (* process.env.GROQ_API_KEY *)
}.

Inductive StreamOutcome :=
| StreamFinish                         (* writer 'finish' *)
| WriterError (msg : string)           (* writer 'error' *)
| StreamError (msg : string).          (* response.data 'error' *)

Inductive AxiosOutcome :=
| AxResponse (code : Z) (body : StreamOutcome)
| AxErrResponse (code : Z)             (* AxiosError with error.response *)
| AxErrNoResponse (msg : string)       (* AxiosError with error.request only: no
                                          answer arrived, which is how an expired
                                          timeout surfaces *)
| AxErrSetup (msg : string)            (* AxiosError with neither *)
| AxOtherError (msg : string).         (* not an AxiosError *)

(** An ffmpeg run that ends with 'error' may already have written output:
    [leftover] says whether the output file exists, [names] which chunk files
    do. *)
Inductive FfmpegOutcome :=
| FfEnd
| FfError (msg : string) (leftover : bool).

Inductive SplitOutcome :=
| SplitEnd (names : list string)       (* the entries of the chunk directory *)
| SplitError (msg : string) (names : list string).

Inductive StatOutcome :=
| StatSize (size : Z)
| StatError (msg : string).

Inductive GroqOutcome :=
| GroqResponse (text : option string)  (* transcription.text, when present *)
| GroqError (msg : string).

Record Env := mkEnv {
  config : Config;
  uuidv4 : string;                                (* the next generated id *)
  url_parses : Value -> bool;                     (* new URL(v) does not throw *)
  url_extname : Value -> option string;           (* path.extname(new URL(u).pathname) *)
  path_stem : string -> string;                   (* path.parse(p).name *)
  db_fault : nat -> option string;                (* the n-th Mongoose call rejects *)
  fs_fault : nat -> option string;                (* the n-th fs-extra call rejects *)
  axios_get : JsObject -> AxiosOutcome;
  ffmpeg_extract : string -> FfmpegOutcome;
  ffmpeg_split : string -> SplitOutcome;
  full_audio_size : string -> Z;                  (* fs.stat(fullAudioPath).size *)
  chunk_stat : nat -> string -> StatOutcome;      (* by chunkIndex and path *)
  groq_create : nat -> JsObject -> GroqOutcome    (* by chunkIndex and request *)
}.

(** ** Mongoose calls on the Task model *)

Definition db_error (msg : string) : JsError := mkError msg InStore.
Definition fs_error (msg : string) : JsError := mkError msg InFs.
Definition stage_error (s : Stage) (msg : string) : JsError := mkError msg (InStage s).
Definition controller_error (msg : string) : JsError := mkError msg InController.

(** [newTask.save()]: the pre('save') hook refreshes [updatedAt], the document
    is validated, then inserted. *)
Definition Task_save (env : Env) (t : Task) : M World unit :=
  fun w =>
    let w1 := tick_db w in
    let t' := touch (clock w) t in
    match validate t' with
    | Some msg => (Throw (db_error msg), emit (EvSave (_id t) false) w1)
    | None =>
        match db_fault env (dbCalls w) with
        | Some msg => (Throw (db_error msg), emit (EvSave (_id t) false) w1)
        | None =>
            match tasks w !! _id t with
            | Some _ =>
                (Throw (db_error "E11000 duplicate key error"), emit (EvSave (_id t) false) w1)
            | None =>
                (Normal tt, emit (EvSave (_id t) true) (set_tasks (insert (_id t) t') w1))
            end
        end
    end.

(** [Task.findByIdAndUpdate(id, upd, { new: true })]: resolves to the updated
    document, or to null when no document has this id; the
    pre('findOneAndUpdate') hook refreshes [updatedAt]. *)
Definition Task_findByIdAndUpdate (env : Env) (id : string) (upd : JsObject)
  : M World (option Task) :=
  fun w =>
    let w1 := tick_db w in
    match db_fault env (dbCalls w) with
    | Some msg => (Throw (db_error msg), emit (EvUpdate id upd Rejected) w1)
    | None =>
        match tasks w !! id with
        | None => (Normal None, emit (EvUpdate id upd NotFound) w1)
        | Some t =>
            let t' := touch (clock w) (set_paths upd t) in
            (Normal (Some t'), emit (EvUpdate id upd Applied) (set_tasks (insert id t') w1))
        end
    end.

(** ** fs-extra calls *)

Definition fs_call {A} (env : Env) (k : M World A) : M World A :=
  fun w =>
    match fs_fault env (fsCalls w) with
    | Some msg => (Throw (fs_error msg), tick_fs w)
    | None => k (tick_fs w)
    end.

(** A path exists when it is on disk or something below it is. *)
Definition on_disk (p : string) (w : World) : bool :=
  bool_decide (set_Exists (fun q => at_or_under p q = true) (files w)).

Definition fs_pathExists (env : Env) (p : string) : M World bool :=
  fs_call env (gets (on_disk p)).

(** fs.remove deletes a file, or a directory with everything below it. *)
Definition fs_remove (env : Env) (p : string) : M World unit :=
  fs_call env (modify (set_files (filter (fun q => at_or_under p q = false)))).

Definition fs_ensureDir (env : Env) (p : string) : M World unit :=
  fs_call env (modify (set_files (union {[p]}))).

(** Opening the file is taken not to fail. *)
Definition fs_createWriteStream (p : string) : M World unit :=
  modify (set_files (union {[p]})).

Fixpoint for_each {S A} (f : A -> M S unit) (l : list A) : M S unit :=
  match l with
  | [] => ret tt
  | x :: l' => f x >> for_each f l'
  end.

(** ** utils/fileHandler.js *)

Definition cleanup_one (env : Env) (filePath : Value) : M World unit :=
  if truthy filePath then
    try_catch
      (match filePath with
       | VStr p =>
           let* exists_ := fs_pathExists env p in
           if exists_ then fs_remove env p else ret tt
       | _ => throw (fs_error "The path argument must be of type string")
       end)
      (fun error => ret tt)
  else ret tt.

Definition cleanupFiles (env : Env) (filePaths : list Value) : M World unit :=
  modify (emit (EvCleanupFiles filePaths)) >>
  for_each (cleanup_one env) filePaths.

(** The Error the catch block of [downloadVideoFromUrl] re-throws, when the
    request or the status check inside its try block threw. *)
Definition download_failure (o : AxiosOutcome) : option string :=
  match o with
  | AxResponse code _ =>
      if (code <? 200)%Z || (300 <=? code)%Z
      then Some ("Download failed: Server responded with status code " +:+ show_Z code)
      else None
  | AxErrResponse code =>
      Some ("Download failed: Server responded with status " +:+ show_Z code)
  | AxErrNoResponse _ => Some "Download failed: No response received from server."
  | AxErrSetup msg => Some ("Download failed: " +:+ msg)
  | AxOtherError msg => Some ("Download failed: " +:+ msg)
  end.

Definition download_suffix (env : Env) (videoUrl : Value) : string :=
  match url_extname env videoUrl with
  | Some pathSuffix =>
      if negb (String.eqb pathSuffix "")
         && Nat.ltb 1 (String.length pathSuffix)
         && Nat.leb (String.length pathSuffix) 6
      then pathSuffix else ".mp4"
  | None => ".mp4"
  end.

Definition download_path (env : Env) (videoUrl : Value) (taskId : string) : string :=
  path_join (tempDir (config env)) (taskId +:+ "_downloaded" +:+ download_suffix env videoUrl).

Definition download_request (env : Env) (videoUrl : Value) : JsObject :=
  [("method", VStr "get"); ("url", videoUrl); ("responseType", VStr "stream");
   ("timeout", VNum (downloadTimeout (config env)))].

Definition downloadVideoFromUrl (env : Env) (videoUrl : Value) (taskId : string)
  : M World string :=
  let tempFilePath := download_path env videoUrl taskId in
  fs_createWriteStream tempFilePath >>
  modify (emit (EvRequest "axios" (download_request env videoUrl))) >>
  let response := axios_get env (download_request env videoUrl) in
  match download_failure response with
  | Some msg =>
      catch_and_log (fs_remove env tempFilePath) >>
      throw (stage_error Download msg)
  | None =>
      match response with
      | AxResponse _ (WriterError msg) =>
          catch_and_log (fs_remove env tempFilePath) >>
          throw (stage_error Download ("Failed to write video file: " +:+ msg))
      | AxResponse _ (StreamError msg) =>
          catch_and_log (fs_remove env tempFilePath) >>
          throw (stage_error Download ("Download stream error: " +:+ msg))
      | _ => ret tempFilePath
      end
  end.

(** ** services/videoProcessor.js *)

Definition getFullAudioPath (env : Env) (baseFilename extension : string) : string :=
  path_join (tempDir (config env)) (path_stem env baseFilename +:+ "_full_audio." +:+ extension).

Definition extractAudio (env : Env) (videoPath : string) : M World string :=
  let audioPath := getFullAudioPath env videoPath "mp3" in
  match ffmpeg_extract env videoPath with
  | FfEnd => modify (set_files (union {[audioPath]})) >> ret audioPath
  | FfError msg leftover =>
      (if leftover then modify (set_files (union {[audioPath]})) else ret tt) >>
      throw (stage_error ExtractAudio ("ffmpeg error: " +:+ msg))
  end.

Definition chunk_dir (env : Env) (taskId : string) : string :=
  path_join (tempDir (config env)) (taskId +:+ "_chunks").

Definition size_limit : Z := 25 * 1024 * 1024.

Definition is_chunk_name (file : string) : bool :=
  starts_with "chunk_" file && ends_with ".mp3" file.

(** [readdir] and the [stat] of the fallback run inside the 'end' handler and
    are taken not to fail: a rejection there would call neither [resolve] nor
    [reject], and the promise would never settle. *)
Definition splitAudio (env : Env) (fullAudioPath taskId : string) : M World (list string) :=
  let chunkDir := chunk_dir env taskId in
  fs_ensureDir env chunkDir >>
  match ffmpeg_split env fullAudioPath with
  | SplitError msg files_ =>
      modify (set_files (union (list_to_set (map (path_join chunkDir) files_)))) >>
      throw (stage_error SplitAudio ("ffmpeg splitting error: " +:+ msg))
  | SplitEnd files_ =>
      modify (set_files (union (list_to_set (map (path_join chunkDir) files_)))) >>
      let chunkPaths := js_sort (map (path_join chunkDir) (List.filter is_chunk_name files_)) in
      match chunkPaths with
      | [] =>
          if (full_audio_size env fullAudioPath <? size_limit)%Z
          then ret [fullAudioPath]
          else throw (stage_error SplitAudio
                        "Audio splitting failed to produce chunk files for a large input.")
      | _ => ret chunkPaths
      end
  end.

Definition api_key_configured (cfg : Config) : bool :=
  match groqApiKey cfg with
  | Some k => negb (String.eqb k "")
  | None => false
  end.

Definition transcription_request (chunkPath : string) : JsObject :=
  [("file", VStream chunkPath); ("model", VStr "whisper-large-v3")].

(** One iteration of the loop of [transcribeAudio]; returns the new value of
    [combinedTranscript]. *)
Definition transcribe_chunk (env : Env) (chunkIndex : nat) (chunkPath : string)
    (combinedTranscript : string) : M World string :=
  try_catch
    (match chunk_stat env chunkIndex chunkPath with
     | StatError msg => throw (fs_error msg)
     | StatSize size =>
         if (size_limit <=? size)%Z then ret combinedTranscript
         else if (size =? 0)%Z then ret combinedTranscript
         else
           modify (emit (EvRequest "groq" (transcription_request chunkPath))) >>
           match groq_create env chunkIndex (transcription_request chunkPath) with
           | GroqError msg => throw (stage_error Transcribe msg)
           | GroqResponse (Some text_) =>
               if negb (String.eqb text_ "")
               then ret (combinedTranscript +:+ text_ +:+ " ")
               else ret combinedTranscript
           | GroqResponse None => ret combinedTranscript
           end
     end)
    (fun error => ret combinedTranscript).

Fixpoint transcribe_loop (env : Env) (chunkIndex : nat) (audioChunkPaths : list string)
    (combinedTranscript : string) : M World string :=
  match audioChunkPaths with
  | [] => ret combinedTranscript
  | chunkPath :: rest =>
      let* combined := transcribe_chunk env (S chunkIndex) chunkPath combinedTranscript in
      transcribe_loop env (S chunkIndex) rest combined
  end.

Definition transcribeAudio (env : Env) (audioChunkPaths : list string) : M World Value :=
  if negb (api_key_configured (config env)) then
    throw (stage_error Transcribe "Transcription failed: Groq API Key is not configured.")
  else
    let* combinedTranscript := transcribe_loop env 0 audioChunkPaths "" in
    ret (VStr (trim combinedTranscript)).

Definition cleanupChunks (env : Env) (taskId : string) : M World unit :=
  let chunkDir := chunk_dir env taskId in
  modify (emit (EvCleanupChunks taskId)) >>
  try_catch
    (let* exists_ := fs_pathExists env chunkDir in
     if exists_ then fs_remove env chunkDir else ret tt)
    (fun error => ret tt).

(** ** controllers/taskController.js *)

(** The [let] variables of [processVideoTask], read by its finally block. *)
Record Locals := mkLocals {
  tempVideoPath : Value;
  tempFullPath : Value;
  audioChunkPaths : list string
}.

Definition initial_locals : Locals := mkLocals VNull VNull [].

Definition Frame : Type := Locals * World.

Definition lift {A} (m : M World A) : M Frame A :=
  fun s => match m (snd s) with (c, w') => (c, (fst s, w')) end.

Definition assign (f : Locals -> Locals) : M Frame unit :=
  modify (fun s => (f (fst s), snd s)).

Definition read {A} (f : Locals -> A) : M Frame A := gets (fun s => f (fst s)).

(** An exception leaving the call of stage [s], as seen by the caller. *)
Definition raised_by {A} (s : Stage) (m : M World A) : M World A :=
  try_catch m (fun e => throw (stage_error s (message e))).

(** [if (!task) throw new Error(msg)] *)
Definition expect_task (msg : string) (task : option Task) : M Frame unit :=
  match task with
  | Some _ => ret tt
  | None => throw (controller_error msg)
  end.

Definition done_update (transcript : Value) : JsObject :=
  [("status", VStr DONE); ("transcript", transcript); ("errorMessage", VNull)].

Definition failed_update (errorMsg : string) : JsObject :=
  [("status", VStr FAILED); ("errorMessage", VStr errorMsg)].

Definition tryBlock (env : Env) (taskId : string) (videoUrl : Value) : M Frame unit :=
  let* task := lift (Task_findByIdAndUpdate env taskId [("status", VStr DOWNLOADING)]) in
  expect_task "Task not found after initial update." task >>
  let* videoPath := lift (raised_by Download (downloadVideoFromUrl env videoUrl taskId)) in
  assign (fun l => mkLocals (VStr videoPath) (tempFullPath l) (audioChunkPaths l)) >>
  let* task := lift (Task_findByIdAndUpdate env taskId [("status", VStr EXTRACTING_AUDIO)]) in
  expect_task "Task not found before audio extraction." task >>
  let* fullPath := lift (raised_by ExtractAudio (extractAudio env videoPath)) in
  assign (fun l => mkLocals (tempVideoPath l) (VStr fullPath) (audioChunkPaths l)) >>
  let* chunks := lift (raised_by SplitAudio (splitAudio env fullPath taskId)) in
  assign (fun l => mkLocals (tempVideoPath l) (tempFullPath l) chunks) >>
  let* task := lift (Task_findByIdAndUpdate env taskId [("status", VStr TRANSCRIBING)]) in
  expect_task "Task not found before transcription." task >>
  let* transcript := lift (raised_by Transcribe (transcribeAudio env chunks)) in
  (match transcript with
   | VNull | VUndefined => throw (controller_error "Transcription resulted in empty text.")
   | _ => ret tt
   end) >>
  let* task := lift (Task_findByIdAndUpdate env taskId (done_update transcript)) in
  expect_task "Task not found when saving final result." task.

Definition catchBlock (env : Env) (taskId : string) (error : JsError) : M Frame unit :=
  let errorMsg := "Task failed: " +:+ message error in
  try_catch
    (lift (Task_findByIdAndUpdate env taskId (failed_update errorMsg)) >> ret tt)
    (fun dbError => ret tt).

Definition finallyBlock (env : Env) (taskId : string) : M Frame unit :=
  let* video := read tempVideoPath in
  let* full := read tempFullPath in
  lift (cleanupFiles env [video; full]) >>
  lift (cleanupChunks env taskId).

Definition processVideoTask (env : Env) (taskId : string) (videoUrl : Value) : M World unit :=
  fun w =>
    match try_finally (try_catch (tryBlock env taskId videoUrl) (catchBlock env taskId))
                      (finallyBlock env taskId) (initial_locals, w) with
    | (c, s) => (c, snd s)
    end.

Record Response := mkResponse { statusCode : Z; json : JsObject }.

(** A call of [processVideoTask] that was started and not awaited. *)
Record Job := mkJob { jobTaskId : string; jobVideoUrl : Value }.

(** POST /api/tasks.  The handler returns its response together with the
    background jobs it started; their effects happen after the response. *)
Definition submitTask (env : Env) (body : JsObject) : M World (Response * list Job) :=
  let videoUrl := get_field "videoUrl" body in
  if negb (truthy videoUrl) then
    ret (mkResponse 400 [("message", VStr "Missing videoUrl in request body")], [])
  else if negb (url_parses env videoUrl) then
    ret (mkResponse 400 [("message", VStr "Invalid videoUrl format")], [])
  else
    try_catch
      (let* now := gets clock in
       let newTask := new_Task (uuidv4 env) now [("videoUrl", videoUrl)] in
       Task_save env newTask >>
       ret (mkResponse 202 [("taskId", VStr (_id newTask))],
            [mkJob (_id newTask) videoUrl]))
      (fun error =>
         ret (mkResponse 500 [("message", VStr "Failed to create processing task.")], [])).

Definition run_job (env : Env) (j : Job) : M World unit :=
  processVideoTask env (jobTaskId j) (jobVideoUrl j).

(** The request, then the jobs it left behind. *)
Definition serve (env : Env) (body : JsObject) : M World Response :=
  let* r := submitTask env body in
  for_each (run_job env) (snd r) >>
  ret (fst r).

(** ** The stage order *)

Definition stage_rank (s : string) : option nat :=
  if String.eqb s PENDING then Some 0
  else if String.eqb s DOWNLOADING then Some 1
  else if String.eqb s EXTRACTING_AUDIO then Some 2
  else if String.eqb s TRANSCRIBING then Some 3
  else if String.eqb s DONE then Some 4
  else None.

Definition is_terminal (s : string) : bool := String.eqb s DONE || String.eqb s FAILED.

(** One step forward: along PENDING, DOWNLOADING, EXTRACTING_AUDIO,
    TRANSCRIBING, DONE, or to FAILED; never out of DONE or FAILED. *)
Definition forward (s s' : string) : bool :=
  negb (is_terminal s)
  && (String.eqb s' FAILED
      || match stage_rank s, stage_rank s' with
         | Some r, Some r' => Nat.ltb r r'
         | _, _ => false
         end).

Fixpoint forward_chain (l : list string) : bool :=
  match l with
  | s :: ((s' :: _) as l') => forward s s' && forward_chain l'
  | _ => true
  end.

(** The status values persisted on task [id] by the events [evs]. *)
Fixpoint status_writes (id : string) (evs : list Event) : list string :=
  match evs with
  | [] => []
  | EvUpdate id' upd Applied :: evs' =>
      match get_field "status" upd with
      | VStr s => if String.eqb id id' then s :: status_writes id evs' else status_writes id evs'
      | _ => status_writes id evs'
      end
  | _ :: evs' => status_writes id evs'
  end.

Definition is_cleanup (e : Event) : bool :=
  match e with
  | EvCleanupFiles _ | EvCleanupChunks _ => true
  | _ => false
  end.

Definition is_update (e : Event) : bool :=
  match e with
  | EvUpdate _ _ _ => true
  | _ => false
  end.

(** An outbound network call that names its own timeout. *)
Definition carries_timeout (e : Event) : bool :=
  match e with
  | EvRequest _ options => has_field "timeout" options
  | _ => true
  end.

Definition task_status (w : World) (id : string) : option string :=
  status <$> tasks w !! id.

(** ** Vocabulary of the statements *)

(** [w'] has the task collection, the store-call count and the clock of [w]. *)
Definition same_store (w w' : World) : Prop :=
  tasks w' = tasks w /\ dbCalls w' = dbCalls w /\ clock w' = clock w.

Definition is_request (e : Event) : bool :=
  match e with
  | EvRequest _ _ => true
  | _ => false
  end.

Definition is_transcription_request (e : Event) : Prop :=
  exists p, e = EvRequest "groq" (transcription_request p).

(** The audio extraction failed and left its output file behind. *)
Definition extraction_left_output (env : Env) (videoPath : string) : bool :=
  match ffmpeg_extract env videoPath with
  | FfEnd => false
  | FfError _ leftover => leftover
  end.

(** The message with which [downloadVideoFromUrl] rejects, if it does. *)
Definition download_rejection (o : AxiosOutcome) : option string :=
  match download_failure o with
  | Some msg => Some msg
  | None =>
      match o with
      | AxResponse _ (WriterError msg) => Some ("Failed to write video file: " +:+ msg)
      | AxResponse _ (StreamError msg) => Some ("Download stream error: " +:+ msg)
      | _ => None
      end
  end.

(** The skip-and-continue policy of the transcription stage, in the words of
    the specification: which chunks are skipped, and what the others
    contribute. *)
Definition oversized (env : Env) (chunkIndex : nat) (p : string) : bool :=
  match chunk_stat env chunkIndex p with
  | StatSize size => (size_limit <=? size)%Z
  | StatError _ => false
  end.

Definition zero_sized (env : Env) (chunkIndex : nat) (p : string) : bool :=
  match chunk_stat env chunkIndex p with
  | StatSize size => (size =? 0)%Z
  | StatError _ => false
  end.

Definition unreadable (env : Env) (chunkIndex : nat) (p : string) : bool :=
  match chunk_stat env chunkIndex p with
  | StatSize _ => false
  | StatError _ => true
  end.

Definition request_throws (env : Env) (chunkIndex : nat) (p : string) : bool :=
  match groq_create env chunkIndex (transcription_request p) with
  | GroqError _ => true
  | GroqResponse _ => false
  end.

Definition skipped (env : Env) (chunkIndex : nat) (p : string) : bool :=
  oversized env chunkIndex p || zero_sized env chunkIndex p
  || unreadable env chunkIndex p || request_throws env chunkIndex p.

Definition transcript_of (env : Env) (chunkIndex : nat) (p : string) : string :=
  match groq_create env chunkIndex (transcription_request p) with
  | GroqResponse (Some text_) => text_
  | _ => ""
  end.

(** The transcripts of the chunks that are not skipped, in order; the first
    chunk has index [chunkIndex + 1]. *)
Fixpoint remaining_transcripts (env : Env) (chunkIndex : nat) (paths : list string)
  : list string :=
  match paths with
  | [] => []
  | p :: rest =>
      (if skipped env (S chunkIndex) p then [] else [transcript_of env (S chunkIndex) p])
      ++ remaining_transcripts env (S chunkIndex) rest
  end.

(** Every transcript that has text, followed by one space. *)
Fixpoint spaced (ts : list string) : string :=
  match ts with
  | [] => ""
  | t :: rest => (if String.eqb t "" then "" else t +:+ " ") +:+ spaced rest
  end.

Definition partial_transcript (env : Env) (paths : list string) : string :=
  trim (spaced (remaining_transcripts env 0 paths)).

(** [getTempAudioPath] of utils/fileHandler.js. *)
Definition getTempAudioPath (env : Env) (baseFilename : string) : string :=
  path_join (tempDir (config env)) (path_stem env baseFilename +:+ "_extracted_audio.mp3").

(** ** Reading tasks back (getTaskStatus, getTaskResult) *)

(** A rejected Mongoose query, with the properties the handlers read. *)
Record MongooseError := mkMongooseError {
  error_name : string;
  error_path : Value;
  error_message : string
}.

Inductive QueryOutcome :=
| Found (t : Task)
| Missing                                (* the query resolves to null *)
| QueryRejected (error : MongooseError).

(** [Task.findById(id)]; [faults] says which store call rejects, and how. *)
Definition Task_findById (faults : nat -> option MongooseError) (id : string)
  : World -> QueryOutcome * World :=
  fun w =>
    let w1 := tick_db w in
    match faults (dbCalls w) with
    | Some error => (QueryRejected error, w1)
    | None =>
        match tasks w !! id with
        | Some t => (Found t, w1)
        | None => (Missing, w1)
        end
    end.

Definition nullable (o : option string) : Value :=
  match o with
  | Some s => VStr s
  | None => VNull
  end.

(** A hydrated document as a handler reads it: one property per schema path,
    and undefined for any other name.  A Date is given by its time value. *)
Definition document (t : Task) : JsObject :=
  [("_id", VStr (_id t));
   ("url", match url t with Some u => VStr u | None => VUndefined end);
   ("status", VStr (status t));
   ("text", nullable (text t));
   ("errorMessage", nullable (errorMessage t));
   ("createdAt", VNum (Z.of_nat (createdAt t)));
   ("updatedAt", VNum (Z.of_nat (updatedAt t)))].

(** [query.select('a b')]: the named paths, and [_id]. *)
Definition select (paths : list string) (doc : JsObject) : JsObject :=
  List.filter (fun kv => String.eqb (fst kv) "_id" || existsb (String.eqb (fst kv)) paths) doc.

Definition is_undefined (v : Value) : bool :=
  match v with
  | VUndefined => true
  | _ => false
  end.

(** [res.status(code).json(obj)]: JSON.stringify leaves out the keys whose
    value is undefined. *)
Definition send_json (code : Z) (obj : JsObject) : Response :=
  mkResponse code (List.filter (fun kv => negb (is_undefined (snd kv))) obj).

(** [error.name === 'CastError' && error.path === '_id'] *)
Definition is_id_cast_error (error : MongooseError) : bool :=
  String.eqb (error_name error) "CastError"
  && match error_path error with
     | VStr p => String.eqb p "_id"
     | _ => false
     end.

(** GET /api/tasks/:taskId/status.  The query is the one call of the try
    block that can throw; its rejection is what the catch block handles. *)
Definition getTaskStatus (faults : nat -> option MongooseError) (taskId : string)
  : M World Response :=
  fun w =>
    match Task_findById faults taskId w with
    | (Found t, w1) =>
        let task := select ["status"; "updatedAt"] (document t) in
        (Normal (send_json 200 [("taskId", get_field "_id" task);
                                ("status", get_field "status" task);
                                ("updatedAt", get_field "updatedAt" task)]), w1)
    | (Missing, w1) =>
        (Normal (send_json 404 [("message", VStr "Task not found")]), w1)
    | (QueryRejected error, w1) =>
        if is_id_cast_error error
        then (Normal (send_json 400 [("message", VStr "Invalid Task ID format")]), w1)
        else (Normal (send_json 500 [("message", VStr "Error retrieving task status.")]), w1)
    end.

(** GET /api/tasks/:taskId/result *)
Definition getTaskResult (faults : nat -> option MongooseError) (taskId : string)
  : M World Response :=
  fun w =>
    match Task_findById faults taskId w with
    | (Found t, w1) =>
        let task := document t in
        (Normal (send_json 200 [("taskId", get_field "_id" task);
                                ("status", get_field "status" task);
                                ("videoUrl", get_field "videoUrl" task);
                                ("transcript", get_field "transcript" task);
                                ("error", get_field "errorMessage" task);
                                ("createdAt", get_field "createdAt" task);
                                ("updatedAt", get_field "updatedAt" task)]), w1)
    | (Missing, w1) =>
        (Normal (send_json 404 [("message", VStr "Task not found")]), w1)
    | (QueryRejected error, w1) =>
        if is_id_cast_error error
        then (Normal (send_json 400 [("message", VStr "Invalid Task ID format")]), w1)
        else (Normal (send_json 500 [("message", VStr "Error retrieving task result.")]), w1)
    end.

(** ** Paths *)

Fixpoint has_char (c : ascii) (s : string) : bool :=
  match s with
  | EmptyString => false
  | String x s' => Ascii.eqb x c || has_char c s'
  end.

(** A name without a path separator: on such names [path.join] is the
    concatenation that [path_join] is. *)
Definition plain_name (s : string) : bool := negb (has_char "/" s).

(** ** Invariants *)

(** [m] keeps [I]: whatever [m] returns or throws, a state in [I] is left in [I]. *)
Definition preserves {S A} (I : S -> Prop) (m : M S A) : Prop :=
  forall s, I s -> I (snd (m s)).

(** The keys of the updates [processVideoTask] sends. *)
Definition worker_keys : list string := ["status"; "transcript"; "errorMessage"].

Definition worker_update (upd : JsObject) : Prop :=
  Forall (fun kv => In (fst kv) worker_keys) upd.

(** [I] reads the task collection only. *)
Definition tasks_only (I : World -> Prop) : Prop :=
  forall w w', tasks w' = tasks w -> I w -> I w'.

(** What the finally block finds in the two path variables. *)
Definition recorded_paths (env : Env) (taskId : string) (videoUrl : Value) (l : Locals) : Prop :=
  (tempVideoPath l = VNull \/ tempVideoPath l = VStr (download_path env videoUrl taskId))
  /\ (tempFullPath l = VNull
      \/ tempFullPath l = VStr (getFullAudioPath env (download_path env videoUrl taskId) "mp3")).

(** The event persists status [s] on task [id]. *)
Definition persists (id s : string) (e : Event) : bool :=
  match e with
  | EvUpdate id' upd Applied =>
      String.eqb id id'
      && match get_field "status" upd with
         | VStr s' => String.eqb s s'
         | _ => false
         end
  | _ => false
  end.

Definition request_to (client : string) (e : Event) : bool :=
  match e with
  | EvRequest c _ => String.eqb c client
  | _ => false
  end.

(** No event that satisfies [Q] comes before the first one that satisfies [P]. *)
Fixpoint follows (P Q : Event -> bool) (evs : list Event) : bool :=
  match evs with
  | [] => true
  | e :: rest => if P e then true else negb (Q e) && follows P Q rest
  end.

(** ** Uploads *)

(** The chunk's size was read and is neither zero nor 25 MB or more. *)
Definition uploadable (env : Env) (chunkIndex : nat) (chunkPath : string) : bool :=
  match chunk_stat env chunkIndex chunkPath with
  | StatSize size => negb (size_limit <=? size)%Z && negb (size =? 0)%Z
  | StatError _ => false
  end.

(** The chunks with their [chunkIndex]; the first one after [chunkIndex]. *)
Fixpoint numbered (chunkIndex : nat) (paths : list string) : list (nat * string) :=
  match paths with
  | [] => []
  | p :: rest => (S chunkIndex, p) :: numbered (S chunkIndex) rest
  end.

(** One call of [groq.audio.transcriptions.create] for every uploadable
    chunk, in the order of the chunks. *)
Definition create_calls (env : Env) (chunkIndex : nat) (paths : list string) : list Event :=
  map (fun ip => EvRequest "groq" (transcription_request (snd ip)))
    (List.filter (fun ip => uploadable env (fst ip) (snd ip)) (numbered chunkIndex paths)).

(** ** The outcome of a run *)

(** How [splitAudio] completes when [ensureDir] does not fail. *)
Definition split_completion (env : Env) (fullAudioPath taskId : string)
  : Completion (list string) :=
  match ffmpeg_split env fullAudioPath with
  | SplitError msg _ => Throw (stage_error SplitAudio ("ffmpeg splitting error: " +:+ msg))
  | SplitEnd names =>
      match js_sort (map (path_join (chunk_dir env taskId))
                       (List.filter is_chunk_name names)) with
      | [] =>
          if (full_audio_size env fullAudioPath <? size_limit)%Z
          then Normal [fullAudioPath]
          else Throw (stage_error SplitAudio
                        "Audio splitting failed to produce chunk files for a large input.")
      | chunkPaths => Normal chunkPaths
      end
  end.

(** The message of the first stage that fails, in the order in which
    [processVideoTask] calls the stages; [None] when none fails. *)
Definition first_failure (env : Env) (taskId : string) (videoUrl : Value) : option string :=
  let videoPath := download_path env videoUrl taskId in
  let fullPath := getFullAudioPath env videoPath "mp3" in
  match download_rejection (axios_get env (download_request env videoUrl)) with
  | Some msg => Some msg
  | None =>
      match ffmpeg_extract env videoPath with
      | FfError msg _ => Some ("ffmpeg error: " +:+ msg)
      | FfEnd =>
          match split_completion env fullPath taskId with
          | Throw e => Some (message e)
          | Normal _ =>
              if api_key_configured (config env) then None
              else Some "Transcription failed: Groq API Key is not configured."
          end
      end
  end.

(** ** Scenarios *)

Definition url0 : Value := VStr "http://a.test/v.mp4".

Definition cfg0 : Config := mkConfig "tmp" 120000 (Some "gsk_key").

Definition scenario (db fs : nat -> option string) (ax : AxiosOutcome)
    (stat : nat -> string -> StatOutcome) (groq : nat -> JsObject -> GroqOutcome) : Env :=
  mkEnv cfg0 "t2"
    (fun v => match v with VStr u => starts_with "http" u | _ => false end)
    (fun _ => Some ".mp4")
    (fun _ => "t1_downloaded")
    db fs
    (fun _ => ax)
    (fun _ => FfEnd)
    (fun _ => SplitEnd ["chunk_001.mp3"; "chunk_000.mp3"])
    (fun _ => 4096%Z)
    stat groq.

Definition never : nat -> option string := fun _ => None.

Definition at_call (n : nat) (msg : string) : nat -> option string :=
  fun k => if Nat.eqb k n then Some msg else None.

(** Every collaborator answers; both chunks are transcribed. *)
Definition env_ok : Env :=
  scenario never never (AxResponse 200 StreamFinish)
    (fun _ _ => StatSize 1000)
    (fun i _ => GroqResponse (Some (if Nat.eqb i 1 then "hello" else "world"))).

(** The download gets no answer before the timeout expires. *)
Definition env_timeout : Env :=
  scenario never never (AxErrNoResponse "timeout of 120000ms exceeded")
    (fun _ _ => StatSize 1000) (fun _ _ => GroqResponse (Some "hello")).

(** As [env_ok], but the third fs call, the removal of the downloaded video,
    rejects. *)
Definition env_remove_fails : Env :=
  scenario never (at_call 2 "EBUSY: resource busy or locked") (AxResponse 200 StreamFinish)
    (fun _ _ => StatSize 1000)
    (fun i _ => GroqResponse (Some (if Nat.eqb i 1 then "hello" else "world"))).

(** Every chunk is empty. *)
Definition env_all_skipped : Env :=
  scenario never never (AxResponse 200 StreamFinish)
    (fun _ _ => StatSize 0) (fun _ _ => GroqResponse (Some "hello")).

(** Five chunks: too large, empty, rejected by the API, and two transcribed. *)
Definition env_mixed : Env :=
  scenario never never (AxResponse 200 StreamFinish)
    (fun i _ => if Nat.eqb i 1 then StatSize (26 * 1024 * 1024)
                else if Nat.eqb i 2 then StatSize 0 else StatSize 1000)
    (fun i _ => if Nat.eqb i 3 then GroqError "503 Service Unavailable"
                else if Nat.eqb i 4 then GroqResponse (Some "hello")
                else GroqResponse (Some "world")).

Definition five_chunks : list string := ["c1"; "c2"; "c3"; "c4"; "c5"].

(** As [env_mixed], without an API key. *)
Definition env_no_key : Env :=
  mkEnv (mkConfig "tmp" 120000 None) (uuidv4 env_mixed) (url_parses env_mixed)
    (url_extname env_mixed) (path_stem env_mixed) never never (axios_get env_mixed)
    (ffmpeg_extract env_mixed) (ffmpeg_split env_mixed) (full_audio_size env_mixed)
    (chunk_stat env_mixed) (groq_create env_mixed).

(** As [env_ok], but ffmpeg fails the extraction after it started writing. *)
Definition env_extract_fails : Env :=
  mkEnv cfg0 (uuidv4 env_ok) (url_parses env_ok) (url_extname env_ok) (path_stem env_ok)
    never never (axios_get env_ok)
    (fun _ => FfError "Conversion failed!" true)
    (ffmpeg_split env_ok) (full_audio_size env_ok) (chunk_stat env_ok) (groq_create env_ok).

Definition task0 : Task := mkTask "t1" (Some "http://a.test/v.mp4") PENDING None None 0 0.

(** A store that holds the PENDING task t1, an empty temp directory. *)
Definition world0 : World := mkWorld {[ "t1" := task0 ]} ∅ 1 0 0 [].

Definition no_faults : nat -> option MongooseError := fun _ => None.

Definition task_other : Task := mkTask "t2" (Some "http://b.test/w.mp4") DONE None None 0 0.

(** Two tasks in the store, and on disk a file that belongs to neither. *)
Definition world_two : World :=
  mkWorld {[ "t1" := task0; "t2" := task_other ]} {[ "tmp/notes.txt" ]} 1 0 0 [].

(** On disk: a file, a directory with a file in it, and a file next to them. *)
Definition world_files : World :=
  mkWorld ∅ {[ "tmp/a.mp4"; "tmp/t1_chunks/chunk_000.mp3"; "tmp/keep.txt" ]} 1 0 0 [].

(** ** The agent registry *)

Module Registry.

Record Skill := mkSkill {
  skill_id : string;
  skill_name : string;
  skill_description : string;
  examples : list string
}.

(** The descriptor as fetched: untyped JSON, so the required fields may be
    missing. *)
Record Descriptor := mkDescriptor {
  d_name : option string;
  d_url : option string;
  d_version : string;
  d_skills : list Skill;
  d_inputModes : list string;
  d_outputModes : list string;
  d_provider : string
}.

Record Card := mkCard {
  name : string;
  card_url : string;
  version : string;
  skills : list Skill;
  inputModes : list string;
  outputModes : list string;
  provider : string
}.

Record AgentRecord := mkAgentRecord {
  url : string;
  card : Card;
  registeredAt : nat;
  lastRefreshedAt : nat
}.

(** What the registry keeps under a normalized url. *)
Record Entry := mkEntry {
  e_card : Card;
  e_registeredAt : nat;
  e_lastRefreshedAt : nat
}.

Inductive FetchOutcome :=
| Fetched (d : Descriptor)
| TimedOut
| NonSuccess (code : Z).

Inductive RegistryError := UnreachableAgent | MalformedDescriptor | NotFound.

(** Modelled from the spec: the registry's implementation is not among the
    sources (only its README and a curl script are), so [validate],
    [register] and [list] follow section 4.3: required fields are the name
    and the url, the skills list may be empty. *)
Definition validate (d : Descriptor) : option Card :=
  match d_name d, d_url d with
  | Some n, Some u =>
      Some (mkCard n u (d_version d) (d_skills d) (d_inputModes d) (d_outputModes d)
              (d_provider d))
  | _, _ => None
  end.

(** Modelled from the spec: [register(url)] fetches the descriptor,
    validates it and upserts by normalized url; a known url keeps its
    [registeredAt] and gets the new card and [lastRefreshedAt].  The
    normalization (scheme, host and port, no trailing slash) and the fetch
    are parameters. *)
Definition register (normalize : string -> string) (fetch : string -> FetchOutcome)
    (now : nat) (u : string) (reg : gmap string Entry)
  : RegistryError + (AgentRecord * gmap string Entry) :=
  match fetch u with
  | TimedOut | NonSuccess _ => inl UnreachableAgent
  | Fetched d =>
      match validate d with
      | None => inl MalformedDescriptor
      | Some c =>
          let key := normalize u in
          let e := match reg !! key with
                   | Some old => mkEntry c (e_registeredAt old) now
                   | None => mkEntry c now now
                   end in
          inr (mkAgentRecord key c (e_registeredAt e) now, <[key := e]> reg)
      end
  end.

(** Modelled from the spec: [list()] returns all records. *)
Definition list (reg : gmap string Entry) : Datatypes.list AgentRecord :=
  (fun kv => mkAgentRecord (fst kv) (e_card (snd kv)) (e_registeredAt (snd kv))
               (e_lastRefreshedAt (snd kv))) <$> map_to_list reg.

Definition records_for (key : string) (reg : gmap string Entry)
  : Datatypes.list AgentRecord :=
  List.filter (fun r => String.eqb (url r) key) (list reg).

(** Scenario C: agent at http://a.test, descriptor versions 1.0.0 and 2.0.0. *)
Definition strip_slash (u : string) : string :=
  if ends_with "/" u then substring 0 (String.length u - 1) u else u.

Definition descriptor_v (v : string) : Descriptor :=
  mkDescriptor (Some "PDF Summarizer Agent") (Some "http://a.test") v [] ["text/plain"]
    ["text/plain"] "University of Trento".

End Registry.

(** * Properties *)

(** ** Strings and paths *)

Lemma append_cons (x : ascii) (a b : string) : String x a +:+ b = String x (a +:+ b).
Proof. reflexivity. Qed.

Lemma append_assoc (a b c : string) : (a +:+ b) +:+ c = a +:+ (b +:+ c).
Proof.
  induction a as [|x a IH]; [reflexivity|].
  rewrite !append_cons. by rewrite IH.
Qed.

Lemma append_empty_r (a : string) : a +:+ "" = a.
Proof.
  induction a as [|x a IH]; [reflexivity|].
  rewrite append_cons. by rewrite IH.
Qed.

Lemma prefix_append (a b : string) : String.prefix a (a +:+ b) = true.
Proof.
  induction a as [|x a IH].
  - by destruct b.
  - rewrite append_cons. cbn. destruct (ascii_dec x x); [exact IH | congruence].
Qed.

Lemma at_or_under_refl (p : string) : at_or_under p p = true.
Proof. unfold at_or_under. by rewrite String.eqb_refl. Qed.

Lemma at_or_under_join (d n : string) : at_or_under d (path_join d n) = true.
Proof.
  unfold at_or_under, path_join. rewrite <- append_assoc, prefix_append.
  apply orb_true_r.
Qed.

Lemma path_join_truthy (d n : string) : truthy (VStr (path_join d n)) = true.
Proof. unfold path_join. by destruct d. Qed.

(** ** Worlds *)

Arguments cleanupFiles : simpl never.
Arguments cleanupChunks : simpl never.
Arguments cleanup_one : simpl never.
Arguments raised_by : simpl never.
Arguments Task_findByIdAndUpdate : simpl never.
Arguments Task_save : simpl never.
Arguments transcribe_chunk : simpl never.
Arguments finallyBlock : simpl never.


Lemma same_store_refl w : same_store w w.
Proof. by repeat split. Qed.

Lemma same_store_trans w1 w2 w3 : same_store w1 w2 -> same_store w2 w3 -> same_store w1 w3.
Proof. unfold same_store. intros (?&?&?) (?&?&?). repeat split; congruence. Qed.

Ltac break_fault :=
  match goal with
  | |- context [match fs_fault ?e ?n with _ => _ end] => destruct (fs_fault e n) eqn:?
  | |- context [match db_fault ?e ?n with _ => _ end] => destruct (db_fault e n) eqn:?
  | |- context [if on_disk ?p ?w then _ else _] => destruct (on_disk p w) eqn:?
  end.

Lemma added_file (p : string) (F : gset string) x : x ∈ {[p]} ∪ F -> x ∈ F \/ x = p.
Proof.
  intros [Hx|Hx]%elem_of_union; [right; by apply elem_of_singleton in Hx | by left].
Qed.

Ltac new_file :=
  let x := fresh "x" in
  let Hx := fresh "Hx" in
  intros x Hx; try (apply elem_of_filter in Hx as [_ Hx]); by apply added_file.

Ltac no_fault Hn :=
  match goal with
  | H : fs_fault _ _ = Some _ |- _ => rewrite Hn in H; discriminate H
  end.

Lemma on_disk_false p w q : on_disk p w = false -> q ∈ files w -> at_or_under p q = false.
Proof.
  unfold on_disk. intros H Hq. apply bool_decide_eq_false in H.
  destruct (at_or_under p q) eqn:E; [|done]. exfalso. apply H. by exists q.
Qed.

(** ** Clean-up never throws *)

Lemma cleanup_one_spec env v w :
  exists w', cleanup_one env v w = (Normal tt, w') /\ same_store w w' /\ trace w' = trace w
    /\ files w' ⊆ files w
    /\ ((forall n, fs_fault env n = None) -> forall p, v = VStr p -> truthy v = true ->
        forall q, q ∈ files w' -> at_or_under p q = false)
    /\ (truthy v = false -> w' = w).
Proof.
  unfold cleanup_one, try_catch, bind, fs_pathExists, fs_remove, fs_call, gets, modify, throw, ret.
  destruct (truthy v) eqn:Hv.
  2:{ exists w. repeat split; try done. }
  destruct v; cbn; repeat (break_fault; cbn);
    (eexists; split; [reflexivity|]; unfold same_store; cbn; repeat split; try done).
  all: try (intros Hn; exfalso; no_fault Hn).
  - intros x Hx. apply elem_of_filter in Hx. tauto.
  - intros _ p [= <-] _ q Hq. apply elem_of_filter in Hq. tauto.
  - intros _ p [= <-] _ q Hq. eapply on_disk_false; eauto.
Qed.

Lemma cleanup_one_falsy env v w :
  truthy v = false -> cleanup_one env v w = (Normal tt, w).
Proof. unfold cleanup_one. by intros ->. Qed.

Lemma for_each_cleanup_spec env l w :
  exists w', for_each (cleanup_one env) l w = (Normal tt, w') /\ same_store w w'
    /\ trace w' = trace w /\ files w' ⊆ files w
    /\ ((forall n, fs_fault env n = None) -> forall p, In (VStr p) l -> truthy (VStr p) = true ->
        forall q, q ∈ files w' -> at_or_under p q = false).
Proof.
  revert w. induction l as [|v l IH]; intros w; cbn.
  - exists w. unfold ret. repeat split; done.
  - unfold bind. destruct (cleanup_one_spec env v w) as (w1 & -> & Hs & Ht & Hf & Hc & _).
    destruct (IH w1) as (w2 & -> & Hs2 & Ht2 & Hf2 & Hc2).
    exists w2. split; [done|]. split; [by eapply same_store_trans|].
    split; [congruence|]. split; [by etrans|].
    intros Hn p [->|Hin] Hp q Hq.
    + eapply Hc; eauto.
    + eapply Hc2; eauto.
Qed.

Lemma cleanupFiles_spec env l w :
  exists w', cleanupFiles env l w = (Normal tt, w') /\ same_store w w'
    /\ trace w' = (trace w ++ [EvCleanupFiles l])%list /\ files w' ⊆ files w
    /\ ((forall n, fs_fault env n = None) -> forall p, In (VStr p) l -> truthy (VStr p) = true ->
        forall q, q ∈ files w' -> at_or_under p q = false).
Proof.
  unfold cleanupFiles, bind, modify.
  destruct (for_each_cleanup_spec env l (emit (EvCleanupFiles l) w)) as (w' & -> & Hs & Ht & Hf & Hc).
  exists w'. repeat split; try apply Hs; done.
Qed.

Lemma cleanupChunks_spec env taskId w :
  exists w', cleanupChunks env taskId w = (Normal tt, w') /\ same_store w w'
    /\ trace w' = (trace w ++ [EvCleanupChunks taskId])%list /\ files w' ⊆ files w
    /\ ((forall n, fs_fault env n = None) ->
        forall q, q ∈ files w' -> at_or_under (chunk_dir env taskId) q = false).
Proof.
  unfold cleanupChunks, try_catch, bind, fs_pathExists, fs_remove, fs_call, gets, modify,
    throw, ret.
  cbn; repeat (break_fault; cbn);
    (eexists; split; [reflexivity|]; unfold same_store; cbn; repeat split; try done).
  all: try (intros Hn; exfalso; no_fault Hn).
  - intros x Hx. apply elem_of_filter in Hx. tauto.
  - intros _ q Hq. apply elem_of_filter in Hq. tauto.
  - intros _ q Hq. eapply on_disk_false; eauto.
Qed.

Lemma finallyBlock_spec env taskId l w :
  exists w', finallyBlock env taskId (l, w) = (Normal tt, (l, w')) /\ same_store w w'
    /\ trace w' = (trace w ++ [EvCleanupFiles [tempVideoPath l; tempFullPath l];
                               EvCleanupChunks taskId])%list
    /\ files w' ⊆ files w
    /\ ((forall n, fs_fault env n = None) ->
        forall q, q ∈ files w' ->
          at_or_under (chunk_dir env taskId) q = false
          /\ forall p, tempVideoPath l = VStr p \/ tempFullPath l = VStr p ->
                       truthy (VStr p) = true -> at_or_under p q = false).
Proof.
  unfold finallyBlock, bind, read, gets, lift. cbn.
  destruct (cleanupFiles_spec env [tempVideoPath l; tempFullPath l] w)
    as (w1 & -> & Hs & Ht & Hf & Hc). cbn.
  destruct (cleanupChunks_spec env taskId w1) as (w2 & -> & Hs2 & Ht2 & Hf2 & Hc2).
  exists w2. cbn. split; [done|]. split; [by eapply same_store_trans|].
  split; [rewrite Ht2, Ht, <- app_assoc; done|]. split; [by etrans|].
  intros Hn q Hq. split; [by apply Hc2|].
  intros p Hp Htr. apply (Hc Hn p); [|done|by apply Hf2].
  cbn. destruct Hp as [Hp|Hp]; rewrite <- Hp; auto.
Qed.

(** ** The stages, as seen from the controller *)

Lemma raised_by_eq {A} s (m : M World A) w :
  raised_by s m w = match m w with
                    | (Normal a, w') => (Normal a, w')
                    | (Throw e, w') => (Throw (stage_error s (message e)), w')
                    end.
Proof. reflexivity. Qed.

Lemma download_spec env videoUrl taskId w :
  exists w',
    raised_by Download (downloadVideoFromUrl env videoUrl taskId) w
    = (match download_rejection (axios_get env (download_request env videoUrl)) with
       | Some msg => Throw (stage_error Download msg)
       | None => Normal (download_path env videoUrl taskId)
       end, w')
    /\ same_store w w'
    /\ trace w' = (trace w ++ [EvRequest "axios" (download_request env videoUrl)])%list
    /\ (forall x, x ∈ files w' -> x ∈ files w \/ x = download_path env videoUrl taskId)
    /\ ((forall n, fs_fault env n = None) ->
        download_rejection (axios_get env (download_request env videoUrl)) <> None ->
        files w' ⊆ files w).
Proof.
  rewrite raised_by_eq.
  unfold downloadVideoFromUrl, download_rejection, catch_and_log, try_catch, bind,
    fs_createWriteStream, fs_remove, fs_call, modify, throw, ret.
  cbn.
  destruct (download_failure (axios_get env (download_request env videoUrl))) eqn:Hf.
  - cbn. break_fault; cbn; (eexists; split; [reflexivity|]; unfold same_store; cbn;
      repeat split; try done).
    + new_file.
    + intros Hn. exfalso. no_fault Hn.
    + new_file.
    + intros _ _ x Hx. apply elem_of_filter in Hx as [Hx1 Hx2].
      apply elem_of_union in Hx2 as [Hx2|Hx2]; [|done].
      apply elem_of_singleton in Hx2. subst x. by rewrite at_or_under_refl in Hx1.
  - destruct (axios_get env (download_request env videoUrl)) as [code [| |]| | | |]; cbn;
      repeat (break_fault; cbn);
      (eexists; split; [reflexivity|]; unfold same_store; cbn; repeat split; try done).
    all: try new_file.
    all: try (intros Hn; exfalso; no_fault Hn).
    all: intros _ _ x Hx; apply elem_of_filter in Hx as [Hx1 Hx2];
      apply elem_of_union in Hx2 as [Hx2|Hx2]; [|done];
      apply elem_of_singleton in Hx2; subst x; by rewrite at_or_under_refl in Hx1.
Qed.

Lemma extract_spec env videoPath w :
  exists w',
    raised_by ExtractAudio (extractAudio env videoPath) w
    = (match ffmpeg_extract env videoPath with
       | FfEnd => Normal (getFullAudioPath env videoPath "mp3")
       | FfError msg _ => Throw (stage_error ExtractAudio ("ffmpeg error: " +:+ msg))
       end, w')
    /\ same_store w w'
    /\ trace w' = trace w
    /\ (forall x, x ∈ files w' -> x ∈ files w \/ x = getFullAudioPath env videoPath "mp3")
    /\ (ffmpeg_extract env videoPath <> FfEnd -> extraction_left_output env videoPath = false ->
        files w' ⊆ files w).
Proof.
  rewrite raised_by_eq. unfold extractAudio, extraction_left_output, bind, modify, throw, ret.
  destruct (ffmpeg_extract env videoPath) as [|msg [|]]; cbn;
    (eexists; split; [reflexivity|]; unfold same_store; cbn; repeat split; try done).
  all: try new_file.
  all: auto.
Qed.

Lemma split_spec env fullAudioPath taskId w :
  exists c w',
    raised_by SplitAudio (splitAudio env fullAudioPath taskId) w = (c, w')
    /\ same_store w w'
    /\ trace w' = trace w
    /\ (forall x, x ∈ files w' -> x ∈ files w \/ at_or_under (chunk_dir env taskId) x = true)
    /\ (forall e, c = Throw e -> origin e = InStage SplitAudio).
Proof.
  rewrite raised_by_eq. unfold splitAudio, bind, fs_ensureDir, fs_call, modify, throw, ret.
  assert (forall x names, x ∈ (list_to_set (map (path_join (chunk_dir env taskId)) names) : gset string) ->
          at_or_under (chunk_dir env taskId) x = true) as Hnames.
  { intros x names Hx. apply elem_of_list_to_set in Hx. apply list_elem_of_In in Hx.
    apply in_map_iff in Hx as (n & <- & _). apply at_or_under_join. }
  break_fault; cbn.
  { do 2 eexists. split; [reflexivity|]. unfold same_store; cbn. repeat split; try done.
    - auto.
    - by intros e [= <-]. }
  assert (forall x names,
            x ∈ (list_to_set (map (path_join (chunk_dir env taskId)) names) : gset string)
                ∪ ({[chunk_dir env taskId]} ∪ files w) ->
            x ∈ files w \/ at_or_under (chunk_dir env taskId) x = true) as Hfiles.
  { intros x names Hx. apply elem_of_union in Hx as [Hx|Hx]; [right; eauto|].
    apply elem_of_union in Hx as [Hx|Hx]; [|by left].
    apply elem_of_singleton in Hx. subst. right. apply at_or_under_refl. }
  destruct (ffmpeg_split env fullAudioPath) as [names|msg names]; cbn.
  2:{ do 2 eexists. split; [reflexivity|]. unfold same_store; cbn. repeat split; try done.
      - intros x. apply Hfiles.
      - by intros e [= <-]. }
  destruct (js_sort (map (path_join (chunk_dir env taskId)) (List.filter is_chunk_name names)));
    [destruct (full_audio_size env fullAudioPath <? size_limit)%Z|]; cbn;
    (do 2 eexists; split; [reflexivity|]; unfold same_store; cbn; repeat split; try done).
  all: try by intros e [= <-].
  all: intros x; apply Hfiles.
Qed.

(** ** The transcription loop *)

Lemma spaced_app (l1 l2 : list string) : spaced (l1 ++ l2) = spaced l1 +:+ spaced l2.
Proof.
  induction l1 as [|t l1 IH]; [reflexivity|].
  cbn [spaced app]. by rewrite IH, append_assoc.
Qed.

Lemma transcribe_chunk_spec env i p acc w :
  exists w' evs,
    transcribe_chunk env i p acc w
    = (Normal (acc +:+ spaced (if skipped env i p then [] else [transcript_of env i p])), w')
    /\ same_store w w' /\ files w' = files w /\ fsCalls w' = fsCalls w
    /\ trace w' = (trace w ++ evs)%list /\ Forall is_transcription_request evs.
Proof.
  unfold transcribe_chunk, skipped, oversized, zero_sized, unreadable, request_throws,
    transcript_of, try_catch, bind, modify, throw, ret.
  destruct (chunk_stat env i p) as [size|msg]; cbn.
  2:{ exists w, []. rewrite append_empty_r, app_nil_r. by repeat split. }
  destruct (size_limit <=? size)%Z; cbn.
  { exists w, []. rewrite append_empty_r, app_nil_r. by repeat split. }
  destruct (size =? 0)%Z; cbn.
  { exists w, []. rewrite append_empty_r, app_nil_r. by repeat split. }
  destruct (groq_create env i (transcription_request p)) as [[t|]|msg]; cbn.
  1: destruct (String.eqb t ""); cbn.
  all: eexists _, [EvRequest "groq" (transcription_request p)];
    rewrite ?append_empty_r; (split; [reflexivity|]); unfold same_store; cbn;
    repeat split; try done; repeat constructor; by eexists.
Qed.

Lemma transcribe_loop_spec env paths : forall i acc w,
  exists w' evs,
    transcribe_loop env i paths acc w
    = (Normal (acc +:+ spaced (remaining_transcripts env i paths)), w')
    /\ same_store w w' /\ files w' = files w /\ fsCalls w' = fsCalls w
    /\ trace w' = (trace w ++ evs)%list /\ Forall is_transcription_request evs.
Proof.
  induction paths as [|p rest IH]; intros i acc w; cbn [transcribe_loop remaining_transcripts].
  - exists w, []. unfold ret. rewrite append_empty_r, app_nil_r. by repeat split.
  - unfold bind.
    destruct (transcribe_chunk_spec env (S i) p acc w) as (w1 & evs1 & -> & Hs1 & Hf1 & Hc1 & Ht1 & He1).
    destruct (IH (S i) (acc +:+ spaced (if skipped env (S i) p then [] else [transcript_of env (S i) p])) w1)
      as (w2 & evs2 & -> & Hs2 & Hf2 & Hc2 & Ht2 & He2).
    exists w2, (evs1 ++ evs2)%list. rewrite spaced_app, append_assoc.
    split; [done|]. split; [by eapply same_store_trans|].
    repeat split; try congruence.
    + rewrite Ht2, Ht1. by rewrite app_assoc.
    + by apply Forall_app.
Qed.

Lemma transcribe_spec env paths w :
  exists w' evs,
    raised_by Transcribe (transcribeAudio env paths) w
    = (if api_key_configured (config env)
       then Normal (VStr (partial_transcript env paths))
       else Throw (stage_error Transcribe
                     "Transcription failed: Groq API Key is not configured."), w')
    /\ same_store w w' /\ files w' = files w /\ fsCalls w' = fsCalls w
    /\ trace w' = (trace w ++ evs)%list /\ Forall is_transcription_request evs.
Proof.
  rewrite raised_by_eq. unfold transcribeAudio, partial_transcript, bind, throw, ret.
  destruct (api_key_configured (config env)); cbn.
  - destruct (transcribe_loop_spec env paths 0 "" w) as (w' & evs & -> & H).
    exists w', evs. split; [reflexivity | exact H].
  - exists w, []. rewrite app_nil_r. by repeat split.
Qed.

(** ** The try block, step by step *)

Lemma status_writes_app id (l1 l2 : list Event) :
  status_writes id (l1 ++ l2) = (status_writes id l1 ++ status_writes id l2)%list.
Proof.
  induction l1 as [|e l1 IH]; [reflexivity|].
  cbn [app status_writes]. destruct e as [| ? upd [| |] | | |]; try exact IH.
  destruct (get_field "status" upd); try exact IH.
  destruct (String.eqb id id0); cbn [app]; by rewrite IH.
Qed.

Lemma status_writes_requests id (evs : list Event) :
  Forall is_transcription_request evs -> status_writes id evs = [].
Proof.
  induction 1 as [|e evs [p ->] _ IH]; [reflexivity | exact IH].
Qed.

Ltac use_store H :=
  let Ht := fresh "Htasks" in
  let Hd := fresh "Hdb" in
  let Hc := fresh "Hclock" in
  destruct H as (Ht & Hd & Hc); cbn in Ht, Hd, Hc.

Ltac normalize :=
  repeat match goal with
         | H : tasks ?w = _ |- context [tasks ?w] => rewrite H
         | H : dbCalls ?w = _ |- context [dbCalls ?w] => rewrite H
         | H : clock ?w = _ |- context [clock ?w] => rewrite H
         | H : trace ?w = _ |- context [trace ?w] => rewrite H
         | |- context [<[?i := ?x]> ?m !! ?i] => rewrite (lookup_insert_eq m i x)
         end.

Ltac step :=
  match goal with
  | |- context [raised_by Download (downloadVideoFromUrl ?env ?u ?id) ?w] =>
      let w' := fresh "wd" in
      let Hs := fresh "Hs" in
      let Htr := fresh "Htr" in
      let Hnew := fresh "Hnew" in
      let Hrej := fresh "Hrej" in
      destruct (download_spec env u id w) as (w' & -> & Hs & Htr & Hnew & Hrej);
      use_store Hs; cbn in Htr, Hnew, Hrej;
      destruct (download_rejection (axios_get env (download_request env u))) eqn:?
  | |- context [raised_by ExtractAudio (extractAudio ?env ?p) ?w] =>
      let w' := fresh "wx" in
      let Hs := fresh "Hs" in
      let Htr := fresh "Htr" in
      let Hnew := fresh "Hnew" in
      let Hrej := fresh "Hrej" in
      destruct (extract_spec env p w) as (w' & -> & Hs & Htr & Hnew & Hrej);
      use_store Hs; cbn in Htr, Hnew, Hrej;
      destruct (ffmpeg_extract env p) eqn:?
  | |- context [raised_by SplitAudio (splitAudio ?env ?p ?id) ?w] =>
      let c := fresh "c" in
      let w' := fresh "ws" in
      let Hs := fresh "Hs" in
      let Htr := fresh "Htr" in
      let Hnew := fresh "Hnew" in
      let Hor := fresh "Hor" in
      destruct (split_spec env p id w) as (c & w' & -> & Hs & Htr & Hnew & Hor);
      use_store Hs; cbn in Htr, Hnew;
      destruct c as [?chunks|?e]
  | |- context [raised_by Transcribe (transcribeAudio ?env ?l) ?w] =>
      let w' := fresh "wt" in
      let evs := fresh "evs" in
      let Hs := fresh "Hs" in
      let Hf := fresh "Hfiles" in
      let Hc := fresh "Hfs" in
      let Htr := fresh "Htr" in
      let Hev := fresh "Hev" in
      destruct (transcribe_spec env l w) as (w' & evs & -> & Hs & Hf & Hc & Htr & Hev);
      use_store Hs; cbn in Htr, Hf, Hc;
      destruct (api_key_configured (config env)) eqn:?
  | |- context [match db_fault ?e ?n with _ => _ end] => destruct (db_fault e n) eqn:?
  | |- context [match ?m !! ?id with _ => _ end] => destruct (m !! id) eqn:?
  end; cbn; normalize.

Ltac run_try :=
  unfold tryBlock, bind, lift, assign, read, modify, gets, ret, throw, expect_task,
    Task_findByIdAndUpdate, initial_locals; cbn;
  repeat step.

Ltac trace_suffix := eexists; split; [normalize; rewrite <- ?app_assoc; reflexivity|].

(** The status values a run of the try block persists. *)
Lemma tryBlock_status env taskId videoUrl w :
  match tryBlock env taskId videoUrl (initial_locals, w) with
  | (c, (l1, w1)) =>
      exists evs, trace w1 = (trace w ++ evs)%list
        /\ match c with
           | Normal _ =>
               status_writes taskId evs = [DOWNLOADING; EXTRACTING_AUDIO; TRANSCRIBING; DONE]
           | Throw _ =>
               In (status_writes taskId evs)
                 [[]; [DOWNLOADING]; [DOWNLOADING; EXTRACTING_AUDIO];
                  [DOWNLOADING; EXTRACTING_AUDIO; TRANSCRIBING]]
           end
  end.
Proof.
  run_try.
  all: trace_suffix.
  all: rewrite ?status_writes_app;
    repeat match goal with
           | H : Forall is_transcription_request ?evs |- context [status_writes ?id ?evs] =>
               rewrite (status_writes_requests id evs H)
           end;
    cbn; rewrite ?String.eqb_refl; cbn; tauto.
Qed.

(** ** The whole run *)

Ltac finish_run :=
  match goal with
  | |- context [finallyBlock ?env ?id (?l, ?w)] =>
      let w' := fresh "wf" in
      let Hs := fresh "Hs" in
      let Htr := fresh "Htr" in
      let Hsub := fresh "Hsub" in
      let Hclean := fresh "Hclean" in
      destruct (finallyBlock_spec env id l w) as (w' & -> & Hs & Htr & Hsub & Hclean);
      use_store Hs; cbn in Htr, Hsub, Hclean; cbn; normalize
  end.

Ltac run_process :=
  unfold processVideoTask, try_finally, catchBlock; unfold try_catch;
  run_try; finish_run.

(** C3.  For every task, the persisted status only moves forward along
    PENDING, DOWNLOADING, EXTRACTING_AUDIO, TRANSCRIBING, DONE, with FAILED
    reachable from any non-terminal status: a task is created PENDING, and the
    status values one run of the processor persists on it, read after PENDING,
    form a chain of forward steps; no step leaves DONE or FAILED. *)
Theorem status_only_moves_forward env taskId videoUrl w :
  (forall uuid now v, status (new_Task uuid now [("videoUrl", v)]) = PENDING)
  /\ exists w' evs,
      processVideoTask env taskId videoUrl w = (Normal tt, w')
      /\ trace w' = (trace w ++ evs)%list
      /\ forward_chain (PENDING :: status_writes taskId evs) = true.
Proof.
  split; [reflexivity|].
  run_process.
  all: eexists _, _; split; [reflexivity|];
    split; [normalize; rewrite <- ?app_assoc; reflexivity|].
  all: rewrite ?status_writes_app;
    repeat match goal with
           | H : Forall is_transcription_request ?evs |- context [status_writes ?id ?evs] =>
               rewrite (status_writes_requests id evs H)
           end;
    cbn; rewrite ?String.eqb_refl; reflexivity.
Qed.

Lemma processVideoTask_eq env taskId videoUrl w :
  processVideoTask env taskId videoUrl w
  = match tryBlock env taskId videoUrl (initial_locals, w) with
    | (Normal _, s1) =>
        match finallyBlock env taskId s1 with
        | (Normal _, s) => (Normal tt, snd s)
        | (Throw e, s) => (Throw e, snd s)
        end
    | (Throw e, s1) =>
        match catchBlock env taskId e s1 with
        | (c, s2) =>
            match finallyBlock env taskId s2 with
            | (Normal _, s) => (c, snd s)
            | (Throw e', s) => (Throw e', snd s)
            end
        end
    end.
Proof.
  unfold processVideoTask, try_finally, try_catch.
  destruct (tryBlock env taskId videoUrl (initial_locals, w)) as [[[]|e] s1].
  - destruct (finallyBlock env taskId s1) as [[[]|e] s]; reflexivity.
  - destruct (catchBlock env taskId e s1) as [c s2].
    destruct (finallyBlock env taskId s2) as [[[]|e'] s]; reflexivity.
Qed.

(** When a stage call throws, the task is in the collection: the update
    before it returned the document. *)
Lemma tryBlock_stage_throw env taskId videoUrl w :
  match tryBlock env taskId videoUrl (initial_locals, w) with
  | (Throw e, (l1, w1)) => forall s, origin e = InStage s -> is_Some (tasks w1 !! taskId)
  | _ => True
  end.
Proof.
  run_try.
  all: try exact I.
  all: intros st Hst; try discriminate Hst; normalize; eauto.
Qed.

(** C1.  When a pipeline stage throws, the run still returns normally (nothing
    reaches the submitter) and asks the store for FAILED with the message
    "Task failed: ..." before the two clean-up routines run; if that write is
    applied the task is FAILED with this message, and if the write itself is
    rejected the task collection is as the try block left it. *)
Theorem stage_failure_marks_task_failed env taskId videoUrl w s e l1 w1 :
  tryBlock env taskId videoUrl (initial_locals, w) = (Throw e, (l1, w1)) ->
  origin e = InStage s ->
  exists w' r,
    processVideoTask env taskId videoUrl w = (Normal tt, w')
    /\ trace w'
       = (trace w1 ++ [EvUpdate taskId (failed_update ("Task failed: " +:+ message e)) r;
                       EvCleanupFiles [tempVideoPath l1; tempFullPath l1];
                       EvCleanupChunks taskId])%list
    /\ match db_fault env (dbCalls w1) with
       | None =>
           r = Applied
           /\ exists t, tasks w' !! taskId = Some t /\ status t = FAILED
                        /\ errorMessage t = Some ("Task failed: " +:+ message e)
       | Some _ => r = Rejected /\ tasks w' = tasks w1
       end.
Proof.
  intros Htry Ho.
  pose proof (tryBlock_stage_throw env taskId videoUrl w) as Hin.
  rewrite processVideoTask_eq, Htry in *.
  destruct (Hin s Ho) as [t Ht].
  unfold catchBlock, try_catch, bind, lift, ret, Task_findByIdAndUpdate. cbn.
  destruct (db_fault env (dbCalls w1)) eqn:Hdb; cbn; [|rewrite Ht; cbn]; finish_run.
  all: eexists _, _; split; [reflexivity|]; split; [normalize; rewrite <- ?app_assoc; reflexivity|].
  - by split.
  - split; [done|]. normalize. eexists. split; [reflexivity|]. by split.
Qed.

Lemma filter_cleanup_requests (evs : list Event) :
  Forall is_transcription_request evs -> List.filter is_cleanup evs = [].
Proof.
  induction 1 as [|e evs [p ->] _ IH]; [reflexivity | exact IH].
Qed.

Lemma download_path_truthy env videoUrl taskId p :
  VStr (download_path env videoUrl taskId) = VStr p -> negb (String.eqb p "") = true.
Proof. intros [= <-]. apply (path_join_truthy _ _). Qed.

Lemma audio_path_truthy env videoPath p :
  VStr (getFullAudioPath env videoPath "mp3") = VStr p -> negb (String.eqb p "") = true.
Proof. intros [= <-]. apply (path_join_truthy _ _). Qed.

Ltac solve_filter no_cleanup :=
  rewrite ?List.filter_app;
  repeat match goal with
         | H : Forall is_transcription_request ?evs |- context [List.filter is_cleanup ?evs] =>
             rewrite (no_cleanup evs H)
         end;
  reflexivity.

Lemma download_path_nonempty env videoUrl taskId :
  negb (String.eqb (download_path env videoUrl taskId) "") = true.
Proof. apply (path_join_truthy _ _). Qed.

Lemma audio_path_nonempty env videoPath :
  negb (String.eqb (getFullAudioPath env videoPath "mp3") "") = true.
Proof. apply (path_join_truthy _ _). Qed.

Ltac walk_back Hn Hx Hc1 Hc2 video_nonempty audio_nonempty :=
  repeat match type of Hx with
         | _ ∈ files ?w =>
             match goal with
             | H : _ -> _ -> files w ⊆ _ |- _ => apply (H Hn ltac:(congruence)) in Hx
             | H : _ -> _ -> files w ⊆ _ |- _ =>
                 apply (H ltac:(congruence) ltac:(congruence)) in Hx
             | H : files w = _ |- _ => rewrite H in Hx
             | H : forall x, x ∈ files w -> _ |- _ => apply H in Hx as [Hx|Hx]
             end
         end;
  first
    [ by left
    | by right
    | congruence
    | let Hbad := fresh "Hbad" in
      exfalso; subst;
      first [ pose proof (Hc2 _ (or_introl eq_refl) (video_nonempty _ _ _)) as Hbad;
              rewrite at_or_under_refl in Hbad; discriminate Hbad
            | pose proof (Hc2 _ (or_intror eq_refl) (audio_nonempty _ _)) as Hbad;
              rewrite at_or_under_refl in Hbad; discriminate Hbad ] ].

(** The files a run leaves on disk, when no file system call fails: nothing
    at or below the chunk directory or a recorded path, and nothing new
    except, possibly, the output of an audio extraction that failed. *)
Lemma files_left_by_a_run env taskId videoUrl w :
  exists w' evs video full,
    processVideoTask env taskId videoUrl w = (Normal tt, w')
    /\ trace w' = (trace w ++ evs)%list
    /\ List.filter is_cleanup evs = [EvCleanupFiles [video; full]; EvCleanupChunks taskId]
    /\ ((forall n, fs_fault env n = None) ->
        forall q, q ∈ files w' ->
          (q ∈ files w
           \/ (q = getFullAudioPath env (download_path env videoUrl taskId) "mp3"
               /\ extraction_left_output env (download_path env videoUrl taskId) = true))
          /\ at_or_under (chunk_dir env taskId) q = false
          /\ forall p, video = VStr p \/ full = VStr p -> at_or_under p q = false).
Proof.
  run_process.
  all: eexists _, _, _, _; split; [reflexivity|];
    split; [normalize; rewrite <- ?app_assoc; reflexivity|].
  all: split; [solve_filter filter_cleanup_requests|].
  all: intros Hn q Hq; specialize (Hclean Hn); destruct (Hclean q Hq) as [Hc1 Hc2].
  all: split;
    [ apply Hsub in Hq
    | split; [done|]; intros p Hp; apply Hc2; [done|];
      destruct Hp as [Hp|Hp]; try discriminate Hp;
      eauto using download_path_truthy, audio_path_truthy ].
  all: destruct (extraction_left_output env (download_path env videoUrl taskId)) eqn:Hleft.
  all: walk_back Hn Hq Hc1 Hc2 download_path_nonempty audio_path_nonempty.
Qed.

(** C2, as the code has it.  On every exit path the two clean-up routines run,
    once each and in this order, on the recorded video path, the recorded
    audio path and the chunk directory of the task.  Removal is best effort.
    When no file system call of the run fails, nothing remains at or below
    the chunk directory or a recorded path; and the files on disk after the
    run are among those that were there before it, in every run in which no
    failed audio extraction left output behind (what happens to such output
    is not part of this statement). *)
Theorem cleanup_runs_on_every_exit_path env taskId videoUrl w :
  exists w' evs video full,
    processVideoTask env taskId videoUrl w = (Normal tt, w')
    /\ trace w' = (trace w ++ evs)%list
    /\ List.filter is_cleanup evs = [EvCleanupFiles [video; full]; EvCleanupChunks taskId]
    /\ ((forall n, fs_fault env n = None) ->
        (forall q, q ∈ files w' ->
           at_or_under (chunk_dir env taskId) q = false
           /\ forall p, video = VStr p \/ full = VStr p -> at_or_under p q = false)
        /\ (extraction_left_output env (download_path env videoUrl taskId) = false ->
            files w' ⊆ files w)).
Proof.
  destruct (files_left_by_a_run env taskId videoUrl w)
    as (w' & evs & video & full & Hrun & Htr & Hcl & Hfs).
  exists w', evs, video, full. do 3 (split; [done|]).
  intros Hn. split.
  - intros q Hq. destruct (Hfs Hn q Hq) as (_ & H1 & H2). by split.
  - intros Hleft q Hq. destruct (Hfs Hn q Hq) as ([H|[_ H]] & _); [done | congruence].
Qed.

(** ** Clean-up is total *)

Lemma on_disk_files p w w' : files w' = files w -> on_disk p w' = on_disk p w.
Proof. unfold on_disk. by intros ->. Qed.

Lemma cleanup_one_missing env v w :
  truthy v = false \/ (exists p, v = VStr p /\ on_disk p w = false) ->
  exists w', cleanup_one env v w = (Normal tt, w') /\ files w' = files w.
Proof.
  intros [Hv|(p & -> & Hp)].
  - exists w. by rewrite cleanup_one_falsy.
  - unfold cleanup_one, try_catch, bind, fs_pathExists, fs_remove, fs_call, gets, modify,
      throw, ret.
    destruct (truthy (VStr p)); [|by exists w].
    cbn. destruct (fs_fault env (fsCalls w)); cbn; [by eexists|].
    replace (on_disk p (tick_fs w)) with (on_disk p w) by reflexivity.
    rewrite Hp. by eexists.
Qed.

Lemma for_each_cleanup_missing env l : forall w,
  Forall (fun v => truthy v = false \/ exists p, v = VStr p /\ on_disk p w = false) l ->
  exists w', for_each (cleanup_one env) l w = (Normal tt, w') /\ files w' = files w.
Proof.
  induction l as [|v l IH]; intros w Hl; cbn.
  - by exists w.
  - apply Forall_cons in Hl as [Hv Hl]. unfold bind.
    destruct (cleanup_one_missing env v w Hv) as (w1 & -> & Hf1).
    destruct (IH w1) as (w2 & -> & Hf2).
    + eapply Forall_impl; [exact Hl|]. intros x [Hx|(p & -> & Hp)]; [by left|right].
      exists p. split; [done|]. by rewrite (on_disk_files p w w1).
    + exists w2. split; [done | congruence].
Qed.

(** C10.  For every list of arguments (null, undefined, paths that do not
    exist, paths whose file system calls fail) [cleanupFiles] completes
    normally, and so does [cleanupChunks] for every task id; neither touches
    the task collection; arguments that are null, undefined or missing on disk
    leave the disk as it is.  Hence the finally block of [processVideoTask]
    completes normally and leaves the recorded task state alone. *)
Theorem cleanup_never_throws env taskId (filePaths : list Value) (l : Locals) w :
  (exists w', cleanupFiles env filePaths w = (Normal tt, w') /\ tasks w' = tasks w
              /\ (Forall (fun v => truthy v = false
                                   \/ exists p, v = VStr p /\ on_disk p w = false) filePaths ->
                  files w' = files w))
  /\ (exists w', cleanupChunks env taskId w = (Normal tt, w') /\ tasks w' = tasks w
                 /\ (on_disk (chunk_dir env taskId) w = false -> files w' = files w))
  /\ (exists w', finallyBlock env taskId (l, w) = (Normal tt, (l, w')) /\ tasks w' = tasks w).
Proof.
  split; [|split].
  - destruct (cleanupFiles_spec env filePaths w) as (w' & E & Hs & _).
    exists w'. split; [done|]. split; [apply Hs|].
    intros Hl. unfold cleanupFiles, bind, modify in E.
    destruct (for_each_cleanup_missing env filePaths (emit (EvCleanupFiles filePaths) w) Hl)
      as (w2 & E2 & Hf2).
    rewrite E2 in E. by injection E as <-.
  - destruct (cleanupChunks_spec env taskId w) as (w' & E & Hs & _).
    exists w'. split; [done|]. split; [apply Hs|].
    intros Hd. unfold cleanupChunks, try_catch, bind, fs_pathExists, fs_remove, fs_call,
      gets, modify, throw, ret in E. cbn in E.
    destruct (fs_fault env (fsCalls w)); cbn in E; [by injection E as <-|].
    replace (on_disk (chunk_dir env taskId) (tick_fs (emit (EvCleanupChunks taskId) w)))
      with (on_disk (chunk_dir env taskId) w) in E by reflexivity.
    rewrite Hd in E. by injection E as <-.
  - destruct (finallyBlock_spec env taskId l w) as (w' & E & Hs & _).
    exists w'. split; [done | apply Hs].
Qed.

(** ** The transcription stage *)

Lemma transcribeAudio_spec env (paths : list string) w :
  exists w',
    transcribeAudio env paths w
    = (if api_key_configured (config env)
       then Normal (VStr (partial_transcript env paths))
       else Throw (stage_error Transcribe
                     "Transcription failed: Groq API Key is not configured."), w')
    /\ same_store w w'.
Proof.
  unfold transcribeAudio, partial_transcript, bind, throw, ret.
  destruct (api_key_configured (config env)); cbn.
  - destruct (transcribe_loop_spec env paths 0 "" w) as (w' & evs & -> & Hs & _).
    by exists w'.
  - exists w. split; [done | apply same_store_refl].
Qed.

(** C6, as the code has it.  When the API key is configured,
    [transcribeAudio] returns for every list of chunk paths: a chunk that is
    at or above the 25 MB limit, empty, unreadable, or whose request throws
    is skipped, and the result is the transcripts of the remaining chunks,
    each followed by a space, the whole trimmed.  When the key is not
    configured it throws before it looks at any chunk.  The task collection
    is not touched. *)
Theorem transcribeAudio_skips_and_continues env (paths : list string) w :
  exists w',
    transcribeAudio env paths w
    = (if api_key_configured (config env)
       then Normal (VStr (trim (spaced (remaining_transcripts env 0 paths))))
       else Throw (stage_error Transcribe
                     "Transcription failed: Groq API Key is not configured."), w')
    /\ same_store w w'
    /\ (forall i p,
          oversized env i p = true \/ zero_sized env i p = true
          \/ request_throws env i p = true ->
          skipped env i p = true).
Proof.
  destruct (transcribeAudio_spec env paths w) as (w' & E & Hs).
  exists w'. split; [exact E|]. split; [exact Hs|].
  intros i p. unfold skipped. intros [H | [H | H]]; rewrite H, ?orb_true_r; reflexivity.
Qed.


Lemma in_requests (evs : list Event) e :
  Forall is_transcription_request evs -> In e evs ->
  exists p, e = EvRequest "groq" (transcription_request p).
Proof. intros H Hin. rewrite Forall_forall in H. apply H. by apply list_elem_of_In. Qed.


Ltac spread_in :=
  repeat (cbn [In app] || rewrite in_app_iff).

(** ** The result payload *)

Lemma tryBlock_normal env taskId videoUrl w :
  match tryBlock env taskId videoUrl (initial_locals, w) with
  | (Normal _, (l1, w1)) =>
      exists t0 t transcript,
        tasks w !! taskId = Some t0 /\ tasks w1 !! taskId = Some t
        /\ status t = DONE /\ errorMessage t = None /\ text t = text t0
        /\ In (EvUpdate taskId (done_update (VStr transcript)) Applied) (trace w1)
  | _ => True
  end.
Proof.
  run_try.
  all: try exact I.
  eexists _, _, _. split; [reflexivity|]. split; [reflexivity|].
  do 3 (split; [reflexivity|]).
  apply in_or_app. right. left. reflexivity.
Qed.

(** C4, what the code does.  When the try block runs to its end (every stage
    returns and every update is applied) the task ends with status DONE and a
    null error, and the DONE update carried the transcript; but [transcript]
    is not a path of the Task schema, so the stored document keeps the [text]
    it had before the run: the payload is not on the record. *)
Theorem done_write_drops_transcript env taskId videoUrl w l1 w1 :
  tryBlock env taskId videoUrl (initial_locals, w) = (Normal tt, (l1, w1)) ->
  exists w' t0 t transcript,
    processVideoTask env taskId videoUrl w = (Normal tt, w')
    /\ In (EvUpdate taskId (done_update (VStr transcript)) Applied) (trace w')
    /\ tasks w !! taskId = Some t0
    /\ tasks w' !! taskId = Some t
    /\ status t = DONE /\ errorMessage t = None /\ text t = text t0.
Proof.
  intros Htry.
  pose proof (tryBlock_normal env taskId videoUrl w) as H.
  rewrite processVideoTask_eq, Htry in *.
  destruct H as (t0 & t & transcript & H0 & H1 & Hst & Herr & Htext & Hin).
  finish_run.
  exists wf, t0, t, transcript. split; [reflexivity|].
  split; [rewrite Htr; apply in_or_app; by left|].
  split; [done|]. split; [congruence|]. done.
Qed.

(** ** Submission *)

(** Strict mode: a key that is not a path of the schema changes nothing. *)
Lemma set_path_strict k v t : ~ In k schema_paths -> set_path k v t = t.
Proof.
  intros Hk. unfold set_path.
  repeat match goal with
         | |- context [String.eqb k ?s] =>
             destruct (String.eqb_spec k s) as [->|_];
             [exfalso; apply Hk; cbn; tauto|]
         end.
  reflexivity.
Qed.

Lemma new_Task_drops_videoUrl uuid now v :
  new_Task uuid now [("videoUrl", v)] = mkTask uuid None PENDING None None now now.
Proof. reflexivity. Qed.

Lemma submitTask_rejects env body w :
  (truthy (get_field "videoUrl" body) = false ->
   submitTask env body w
   = (Normal (mkResponse 400 [("message", VStr "Missing videoUrl in request body")], []), w))
  /\ (truthy (get_field "videoUrl" body) = true ->
      url_parses env (get_field "videoUrl" body) = false ->
      submitTask env body w
      = (Normal (mkResponse 400 [("message", VStr "Invalid videoUrl format")], []), w)).
Proof.
  unfold submitTask. split.
  - by intros ->.
  - by intros -> ->.
Qed.

(** C5, what the code does.  A request whose videoUrl is present and parses
    is answered 500: the handler builds the document from [{ videoUrl }],
    which is not a path of the Task schema, the required path [url] stays
    unset, [save()] rejects, and neither a task record nor a background job
    is created. *)
Theorem submitTask_cannot_save env body w :
  truthy (get_field "videoUrl" body) = true ->
  url_parses env (get_field "videoUrl" body) = true ->
  exists w',
    submitTask env body w
    = (Normal (mkResponse 500 [("message", VStr "Failed to create processing task.")], []), w')
    /\ tasks w' = tasks w.
Proof.
  intros Ht Hp. unfold submitTask. rewrite Ht, Hp. cbn.
  unfold try_catch, bind, gets, ret, Task_save. cbn.
  by eexists.
Qed.

(** ** Timeouts *)

Lemma has_timeout_download env videoUrl :
  get_field "timeout" (download_request env videoUrl) = VNum (downloadTimeout (config env)).
Proof. reflexivity. Qed.

Lemma no_timeout_transcription p : has_field "timeout" (transcription_request p) = false.
Proof. reflexivity. Qed.

Ltac request_cases H only_requests :=
  repeat match type of H with
         | _ \/ _ => destruct H as [H|H]
         | In _ _ =>
             let p := fresh "p" in
             apply only_requests in H; [destruct H as [p H] | assumption]
         | False => destruct H
         | EvRequest _ _ = EvRequest _ _ =>
             let H1 := fresh "Hclient" in
             let H2 := fresh "Hoptions" in
             injection H as H1 H2; subst
         | _ = _ => discriminate H
         end;
  first [ left; split; reflexivity | right; split; reflexivity ].

(** C7, as the code has it.  The download request names the configured
    download timeout, and a download that gets no answer (which is how an
    expired timeout surfaces) rejects, so that the task is marked FAILED
    with the message of the download once the FAILED update is applied.  The
    transcription requests name no timeout. *)
Theorem download_carries_timeout env taskId videoUrl w :
  exists w' evs,
    processVideoTask env taskId videoUrl w = (Normal tt, w')
    /\ trace w' = (trace w ++ evs)%list
    /\ (forall client options, In (EvRequest client options) evs ->
          (client = "axios"
           /\ get_field "timeout" options = VNum (downloadTimeout (config env)))
          \/ (client = "groq" /\ has_field "timeout" options = false))
    /\ (forall t0 msg,
          tasks w !! taskId = Some t0 ->
          db_fault env (dbCalls w) = None ->
          axios_get env (download_request env videoUrl) = AxErrNoResponse msg ->
          db_fault env (S (dbCalls w)) = None ->
          exists t, tasks w' !! taskId = Some t /\ status t = FAILED
            /\ errorMessage t
               = Some "Task failed: Download failed: No response received from server.").
Proof.
  run_process.
  all: eexists _, _; split; [reflexivity|];
    split; [normalize; rewrite <- ?app_assoc; reflexivity|].
  all: split;
    [ intros client options; spread_in; intros Hin; request_cases Hin in_requests
    | intros t0 reason Hlook Hfault0 Hax Hfault1; try discriminate;
      rewrite Hax in *; cbn in *;
      repeat match goal with
             | H : Some _ = None |- _ => discriminate H
             | H : None = Some _ |- _ => discriminate H
             | H : Some _ = Some _ |- _ => injection H as H; try subst
             end;
      normalize; eexists; repeat split; reflexivity ].
Qed.

(** ** The agent registry *)

Lemma records_absent (key : string) (l : list (string * Registry.Entry)) :
  key ∉ l.*1 ->
  List.filter (fun r => String.eqb (Registry.url r) key)
    ((fun kv => Registry.mkAgentRecord (fst kv) (Registry.e_card (snd kv))
                  (Registry.e_registeredAt (snd kv)) (Registry.e_lastRefreshedAt (snd kv)))
       <$> l) = [].
Proof.
  induction l as [|[k e] l IH]; intros Hk; [reflexivity|].
  cbn in *. apply not_elem_of_cons in Hk as [Hne Hk].
  destruct (String.eqb_spec k key) as [->|_]; [done | by apply IH].
Qed.

Lemma records_unique (key : string) (e : Registry.Entry) (l : list (string * Registry.Entry)) :
  NoDup l.*1 -> (key, e) ∈ l ->
  List.filter (fun r => String.eqb (Registry.url r) key)
    ((fun kv => Registry.mkAgentRecord (fst kv) (Registry.e_card (snd kv))
                  (Registry.e_registeredAt (snd kv)) (Registry.e_lastRefreshedAt (snd kv)))
       <$> l)
  = [Registry.mkAgentRecord key (Registry.e_card e) (Registry.e_registeredAt e)
       (Registry.e_lastRefreshedAt e)].
Proof.
  induction l as [|[k e'] l IH]; intros Hnd Hin.
  - by apply elem_of_nil in Hin.
  - cbn in *. apply NoDup_cons in Hnd as [Hk Hnd].
    apply elem_of_cons in Hin as [Heq|Hin].
    + injection Heq as <- <-. rewrite String.eqb_refl. f_equal. by apply records_absent.
    + destruct (String.eqb_spec k key) as [->|_]; [|by apply IH].
      exfalso. apply Hk. apply list_elem_of_fmap. by exists (key, e).
Qed.

Lemma records_for_insert (key : string) (e : Registry.Entry) (reg : gmap string Registry.Entry) :
  Registry.records_for key (<[key := e]> reg)
  = [Registry.mkAgentRecord key (Registry.e_card e) (Registry.e_registeredAt e)
       (Registry.e_lastRefreshedAt e)].
Proof.
  unfold Registry.records_for, Registry.list. apply records_unique.
  - apply NoDup_fst_map_to_list.
  - apply elem_of_map_to_list, lookup_insert_eq.
Qed.

(** C8.  Registering the same url twice, both fetches answering with a valid
    descriptor, leaves exactly one record for that url: the one the second
    call returns, with the card and refresh time of the second call and the
    registration time of the first. *)
Theorem register_twice_one_record (normalize : string -> string)
    (fetch1 fetch2 : string -> Registry.FetchOutcome) (now1 now2 : nat) (u : string)
    (reg : gmap string Registry.Entry) (d1 d2 : Registry.Descriptor) (c1 c2 : Registry.Card) :
  fetch1 u = Registry.Fetched d1 -> Registry.validate d1 = Some c1 ->
  fetch2 u = Registry.Fetched d2 -> Registry.validate d2 = Some c2 ->
  exists r1 reg1 r2 reg2,
    Registry.register normalize fetch1 now1 u reg = inr (r1, reg1)
    /\ Registry.register normalize fetch2 now2 u reg1 = inr (r2, reg2)
    /\ Registry.records_for (normalize u) reg2 = [r2]
    /\ Registry.url r2 = normalize u
    /\ Registry.card r2 = c2
    /\ Registry.lastRefreshedAt r2 = now2
    /\ Registry.registeredAt r2 = Registry.registeredAt r1.
Proof.
  intros Hf1 Hv1 Hf2 Hv2. unfold Registry.register.
  rewrite Hf1, Hv1, Hf2, Hv2. eexists _, _, _, _.
  split; [reflexivity|]. split; [reflexivity|].
  rewrite lookup_insert_eq. cbn. rewrite records_for_insert. cbn.
  repeat split.
Qed.

(** ** The read handlers *)

Lemma send_json_code code obj : statusCode (send_json code obj) = code.
Proof. reflexivity. Qed.

(** X1.  The two GET handlers always answer, never throw and never write: the task
    collection, the files and the trace are as before.  The answer is 200
    exactly when the query returns a task, 404 exactly when it returns null,
    400 exactly when it rejects with a CastError on [_id], and 500 for any
    other rejection. *)
Theorem read_handlers_always_respond faults taskId w :
  Forall
    (fun handler =>
       exists r w',
         handler faults taskId w = (Normal r, w')
         /\ tasks w' = tasks w /\ files w' = files w /\ trace w' = trace w
         /\ (statusCode r = 200%Z <-> faults (dbCalls w) = None /\ is_Some (tasks w !! taskId))
         /\ (statusCode r = 404%Z <-> faults (dbCalls w) = None /\ tasks w !! taskId = None)
         /\ (statusCode r = 400%Z
             <-> exists error, faults (dbCalls w) = Some error /\ is_id_cast_error error = true)
         /\ (statusCode r = 500%Z
             <-> exists error, faults (dbCalls w) = Some error /\ is_id_cast_error error = false))
    [getTaskStatus; getTaskResult].
Proof.
  repeat constructor; unfold getTaskStatus, getTaskResult, Task_findById.
  all: destruct (faults (dbCalls w)) as [error|] eqn:Hf;
    [destruct (is_id_cast_error error) eqn:Hc | destruct (tasks w !! taskId) as [t|] eqn:Ht].
  all: eexists _, _; split; [reflexivity|]; rewrite send_json_code.
  all: do 3 (split; [reflexivity|]).
  all: repeat split; try discriminate; try (intros [? ?]; discriminate);
    try (intros (? & [= <-] & ?); congruence); try (intros [? [? ?]]; discriminate); eauto.
Qed.

(** X2.  The result endpoint never returns a transcript or the video URL: the
    handler reads [task.transcript] and [task.videoUrl], which are not paths
    of the schema, so both are undefined and JSON leaves them out.  For a
    task that exists the body is the id, the status, the error and the two
    dates. *)
Theorem result_endpoint_has_no_transcript faults taskId w :
  exists r w',
    getTaskResult faults taskId w = (Normal r, w')
    /\ has_field "transcript" (json r) = false
    /\ has_field "videoUrl" (json r) = false
    /\ (forall t, faults (dbCalls w) = None -> tasks w !! taskId = Some t ->
          r = mkResponse 200
                [("taskId", VStr (_id t)); ("status", VStr (status t));
                 ("error", nullable (errorMessage t));
                 ("createdAt", VNum (Z.of_nat (createdAt t)));
                 ("updatedAt", VNum (Z.of_nat (updatedAt t)))]).
Proof.
  unfold getTaskResult, Task_findById.
  destruct (faults (dbCalls w)) as [error|] eqn:Hf;
    [destruct (is_id_cast_error error) | destruct (tasks w !! taskId) as [t|] eqn:Ht].
  all: eexists _, _; split; [reflexivity|].
  3: destruct t as [i u s x [e|] c d]; cbn.
  all: repeat split; try discriminate.
  all: by intros t' _ [= <-].
Qed.

(** X3.  What an update wrote is what the status endpoint reports: after
    [findByIdAndUpdate(id, { status: s })] on an existing task, the handler
    answers 200 with the id, the status [s] and, as [updatedAt], the time of
    the update (the pre('findOneAndUpdate') hook). *)
Theorem status_endpoint_reads_back_update env faults id s w t0 :
  tasks w !! id = Some t0 ->
  db_fault env (dbCalls w) = None ->
  faults (S (dbCalls w)) = None ->
  exists t w1 w2,
    Task_findByIdAndUpdate env id [("status", VStr s)] w = (Normal (Some t), w1)
    /\ getTaskStatus faults id w1
       = (Normal (mkResponse 200 [("taskId", VStr (_id t0)); ("status", VStr s);
                                  ("updatedAt", VNum (Z.of_nat (clock w)))]), w2).
Proof.
  intros Ht Hdb Hf.
  unfold Task_findByIdAndUpdate, getTaskStatus, Task_findById. rewrite Hdb, Ht. cbn.
  eexists _, _, _. split; [reflexivity|].
  cbn. rewrite Hf, lookup_insert_eq. reflexivity.
Qed.


(** ** Invariants of a run *)

Lemma preserves_ret {S A} (I : S -> Prop) (a : A) : preserves I (ret a).
Proof. by intros s Hs. Qed.

Lemma preserves_throw {S A} (I : S -> Prop) e : preserves I (throw (A:=A) e).
Proof. by intros s Hs. Qed.

Lemma preserves_bind {S A B} (I : S -> Prop) (m : M S A) (k : A -> M S B) :
  preserves I m -> (forall a, preserves I (k a)) -> preserves I (bind m k).
Proof.
  intros Hm Hk s Hs. unfold bind. specialize (Hm s Hs).
  destruct (m s) as [[a|e] s']; [by apply Hk | done].
Qed.

Lemma preserves_try_catch {S A} (I : S -> Prop) (m : M S A) (h : JsError -> M S A) :
  preserves I m -> (forall e, preserves I (h e)) -> preserves I (try_catch m h).
Proof.
  intros Hm Hh s Hs. unfold try_catch. specialize (Hm s Hs).
  destruct (m s) as [[a|e] s']; [done | by apply Hh].
Qed.

Lemma preserves_try_finally {S A} (I : S -> Prop) (m : M S A) (fin : M S unit) :
  preserves I m -> preserves I fin -> preserves I (try_finally m fin).
Proof.
  intros Hm Hf s Hs. unfold try_finally. specialize (Hm s Hs).
  destruct (m s) as [c s']. specialize (Hf s' Hm).
  by destruct (fin s') as [[[]|e] s''].
Qed.

Lemma preserves_lift {A} (I : World -> Prop) (m : M World A) :
  preserves I m -> preserves (fun s : Frame => I (snd s)) (lift m).
Proof.
  intros Hm [l w] Hs. unfold lift. specialize (Hm w Hs). cbn in *.
  by destruct (m w) as [c w'].
Qed.

Lemma preserves_raised_by {A} (I : World -> Prop) s (m : M World A) :
  preserves I m -> preserves I (raised_by s m).
Proof.
  intros Hm w Hw. rewrite raised_by_eq. specialize (Hm w Hw).
  by destruct (m w) as [[a|e] w'].
Qed.

Lemma tryBlock_preserves (I : World -> Prop) env taskId videoUrl :
  (forall upd, worker_update upd -> preserves I (Task_findByIdAndUpdate env taskId upd)) ->
  preserves I (raised_by Download (downloadVideoFromUrl env videoUrl taskId)) ->
  (forall p, preserves I (raised_by ExtractAudio (extractAudio env p))) ->
  (forall p, preserves I (raised_by SplitAudio (splitAudio env p taskId))) ->
  (forall l, preserves I (raised_by Transcribe (transcribeAudio env l))) ->
  preserves (fun s : Frame => I (snd s)) (tryBlock env taskId videoUrl).
Proof.
  intros Hupd Hd Hx Hs Ht. unfold tryBlock.
  repeat (apply preserves_bind; [|intros ?]).
  all: try (apply preserves_lift; first [apply Hupd; repeat constructor; cbn; tauto | done]).
  all: lazymatch goal with
       | |- preserves _ (expect_task _ ?t) => destruct t; by intros ? ?
       | |- preserves _ (assign _) => by intros ? ?
       | |- _ => idtac
       end.
  match goal with |- context [match ?v with _ => _ end] => by destruct v; intros ? ? end.
Qed.

Lemma catchBlock_preserves (I : World -> Prop) env taskId e :
  (forall upd, worker_update upd -> preserves I (Task_findByIdAndUpdate env taskId upd)) ->
  preserves (fun s : Frame => I (snd s)) (catchBlock env taskId e).
Proof.
  intros Hupd. unfold catchBlock.
  apply preserves_try_catch; [|intros; apply preserves_ret].
  apply preserves_bind; [|intros; apply preserves_ret].
  apply preserves_lift, Hupd. repeat constructor; cbn; tauto.
Qed.

Lemma processVideoTask_preserves (I : World -> Prop) env taskId videoUrl :
  preserves (fun s : Frame => I (snd s)) (tryBlock env taskId videoUrl) ->
  (forall e, preserves (fun s : Frame => I (snd s)) (catchBlock env taskId e)) ->
  preserves (fun s : Frame => I (snd s)) (finallyBlock env taskId) ->
  preserves I (processVideoTask env taskId videoUrl).
Proof.
  intros Ht Hc Hf w Hw. unfold processVideoTask.
  pose proof (preserves_try_finally _ _ _ (preserves_try_catch _ _ _ Ht Hc) Hf
                (initial_locals, w) Hw) as H.
  by destruct (try_finally _ _ _) as [c s].
Qed.

Lemma stages_keep_tasks (I : World -> Prop) env taskId videoUrl :
  tasks_only I ->
  preserves I (raised_by Download (downloadVideoFromUrl env videoUrl taskId))
  /\ (forall p, preserves I (raised_by ExtractAudio (extractAudio env p)))
  /\ (forall p, preserves I (raised_by SplitAudio (splitAudio env p taskId)))
  /\ (forall l, preserves I (raised_by Transcribe (transcribeAudio env l)))
  /\ preserves (fun s : Frame => I (snd s)) (finallyBlock env taskId).
Proof.
  intros HI. repeat split.
  - intros w Hw. destruct (download_spec env videoUrl taskId w) as (w' & -> & Hs & _).
    eapply HI; [apply Hs | done].
  - intros p w Hw. destruct (extract_spec env p w) as (w' & -> & Hs & _).
    eapply HI; [apply Hs | done].
  - intros p w Hw. destruct (split_spec env p taskId w) as (c & w' & -> & Hs & _).
    eapply HI; [apply Hs | done].
  - intros l w Hw. destruct (transcribe_spec env l w) as (w' & evs & -> & Hs & _).
    eapply HI; [apply Hs | done].
  - intros [l w] Hw. destruct (finallyBlock_spec env taskId l w) as (w' & -> & Hs & _).
    eapply HI; [apply Hs | done].
Qed.

Lemma run_preserves_tasks_invariant (I : World -> Prop) env taskId videoUrl :
  tasks_only I ->
  (forall upd, worker_update upd -> preserves I (Task_findByIdAndUpdate env taskId upd)) ->
  preserves I (processVideoTask env taskId videoUrl).
Proof.
  intros HI Hupd.
  destruct (stages_keep_tasks I env taskId videoUrl HI) as (Hd & Hx & Hs & Ht & Hf).
  apply processVideoTask_preserves; [by apply tryBlock_preserves | | done].
  intros e. by apply catchBlock_preserves.
Qed.

(** X5.  A run touches no record but its own, and creates none: another task's
    document is after the run what it was before, and a run for an id that
    has no record leaves the id without one. *)
Theorem run_touches_no_other_task env taskId videoUrl w id' :
  id' <> taskId \/ tasks w !! id' = None ->
  tasks (snd (processVideoTask env taskId videoUrl w)) !! id' = tasks w !! id'.
Proof.
  intros Hid.
  apply (run_preserves_tasks_invariant (fun w1 => tasks w1 !! id' = tasks w !! id'));
    [by intros w1 w2 -> | | done].
  intros upd _ w1 Hw1. unfold Task_findByIdAndUpdate.
  destruct (db_fault env (dbCalls w1)); [done|].
  destruct (tasks w1 !! taskId) as [t|] eqn:Ht; [|done]. cbn.
  rewrite lookup_insert_ne; [done|].
  intros <-. destruct Hid as [Hid|Hid]; [done | congruence].
Qed.

Lemma set_paths_worker_keys upd : forall t,
  worker_update upd ->
  _id (set_paths upd t) = _id t /\ url (set_paths upd t) = url t
  /\ text (set_paths upd t) = text t /\ createdAt (set_paths upd t) = createdAt t.
Proof.
  unfold set_paths. induction upd as [|[k v] upd IH]; intros t Hupd; [done|].
  apply Forall_cons in Hupd as [Hk Hupd]. cbn [fold_left fst snd].
  destruct (IH (set_path k v t) Hupd) as (-> & -> & -> & ->).
  cbn in Hk. destruct Hk as [<-|[<-|[<-|[]]]]; cbn.
  - by destruct v.
  - done.
  - by destruct v.
Qed.

(** X6.  Of its own record a run changes the status, the error message and
    [updatedAt] only: the id, the url, the stored text and [createdAt] are
    after the run what they were before, whatever the collaborators do. *)
Theorem run_keeps_identity_of_its_task env taskId videoUrl w t :
  tasks w !! taskId = Some t ->
  exists t', tasks (snd (processVideoTask env taskId videoUrl w)) !! taskId = Some t'
    /\ _id t' = _id t /\ url t' = url t /\ text t' = text t /\ createdAt t' = createdAt t.
Proof.
  intros Ht.
  apply (run_preserves_tasks_invariant
           (fun w1 => exists t', tasks w1 !! taskId = Some t'
              /\ _id t' = _id t /\ url t' = url t /\ text t' = text t
              /\ createdAt t' = createdAt t)).
  - intros w1 w2 ->. done.
  - intros upd Hupd w1 (t1 & Ht1 & H1 & H2 & H3 & H4). unfold Task_findByIdAndUpdate.
    destruct (db_fault env (dbCalls w1)); [by exists t1|]. rewrite Ht1. cbn.
    rewrite lookup_insert_eq. eexists. split; [reflexivity|].
    destruct (set_paths_worker_keys upd t1 Hupd) as (E1 & E2 & E3 & E4). cbn.
    rewrite E1, E2, E3, E4. done.
  - by exists t.
Qed.

(** ** Files a run leaves alone *)

Lemma preserves_modify {S} (I : S -> Prop) (f : S -> S) :
  (forall s, I s -> I (f s)) -> preserves I (modify f).
Proof. intros Hf s Hs. by apply Hf. Qed.

Lemma preserves_for_each {S A} (I : S -> Prop) (f : A -> M S unit) (l : list A) :
  (forall x, In x l -> preserves I (f x)) -> preserves I (for_each f l).
Proof.
  induction l as [|x l IH]; intros Hl; cbn [for_each]; [apply preserves_ret|].
  apply preserves_bind; [apply Hl; by left|]. intros _. apply IH. intros y Hy. apply Hl. by right.
Qed.

Lemma remove_keeps (p q : string) (F : gset string) :
  at_or_under p q = false -> q ∈ F -> q ∈ filter (fun x => at_or_under p x = false) F.
Proof. intros Hp Hq. by apply elem_of_filter. Qed.

Lemma cleanup_one_keeps env v q :
  (forall p, v = VStr p -> p <> "" -> at_or_under p q = false) ->
  preserves (fun w => q ∈ files w) (cleanup_one env v).
Proof.
  intros Hv w Hq.
  unfold cleanup_one, try_catch, bind, fs_pathExists, fs_remove, fs_call, gets, modify, throw, ret.
  destruct (truthy v) eqn:Ht; [|done].
  destruct v; cbn; repeat (break_fault; cbn); try done.
  apply remove_keeps; [|done]. apply Hv; [done|]. intros ->. discriminate Ht.
Qed.

Lemma cleanupFiles_keeps env l q :
  (forall p, In (VStr p) l -> p <> "" -> at_or_under p q = false) ->
  preserves (fun w => q ∈ files w) (cleanupFiles env l).
Proof.
  intros Hl. unfold cleanupFiles.
  apply preserves_bind; [by apply preserves_modify|]. intros _.
  apply preserves_for_each. intros v Hv. apply cleanup_one_keeps. intros p ->. by apply Hl.
Qed.

Lemma cleanupChunks_keeps env taskId q :
  at_or_under (chunk_dir env taskId) q = false ->
  preserves (fun w => q ∈ files w) (cleanupChunks env taskId).
Proof.
  intros Hq w Hw.
  unfold cleanupChunks, try_catch, bind, fs_pathExists, fs_remove, fs_call, gets, modify,
    throw, ret.
  cbn; repeat (break_fault; cbn); try done.
  by apply remove_keeps.
Qed.

Lemma download_keeps env videoUrl taskId q :
  at_or_under (download_path env videoUrl taskId) q = false ->
  preserves (fun w => q ∈ files w) (downloadVideoFromUrl env videoUrl taskId).
Proof.
  intros Hq w Hw.
  unfold downloadVideoFromUrl, catch_and_log, try_catch, bind, fs_createWriteStream,
    fs_remove, fs_call, modify, throw, ret.
  cbn.
  destruct (download_failure (axios_get env (download_request env videoUrl)));
    [|destruct (axios_get env (download_request env videoUrl)) as [code [| |]| | | |]];
    cbn; repeat (break_fault; cbn).
  all: try (apply remove_keeps; [done|]).
  all: apply elem_of_union; by right.
Qed.

Lemma extract_keeps env videoPath q :
  preserves (fun w => q ∈ files w) (extractAudio env videoPath).
Proof.
  intros w Hw. unfold extractAudio, bind, modify, throw, ret.
  destruct (ffmpeg_extract env videoPath) as [|msg [|]]; cbn; try done.
  all: apply elem_of_union; by right.
Qed.

Lemma split_keeps env fullAudioPath taskId q :
  preserves (fun w => q ∈ files w) (splitAudio env fullAudioPath taskId).
Proof.
  intros w Hw. unfold splitAudio, bind, fs_ensureDir, fs_call, modify, throw, ret.
  break_fault; cbn; [done|].
  destruct (ffmpeg_split env fullAudioPath) as [names|msg names]; cbn.
  1: destruct (js_sort _); [destruct (_ <? _)%Z|]; cbn.
  all: apply elem_of_union; right; apply elem_of_union; by right.
Qed.

Lemma transcribe_keeps env paths q :
  preserves (fun w => q ∈ files w) (transcribeAudio env paths).
Proof.
  intros w Hw. unfold transcribeAudio, bind, throw, ret.
  destruct (negb (api_key_configured (config env))); [done|].
  destruct (transcribe_loop_spec env paths 0 "" w) as (w' & evs & -> & _ & Hf & _).
  cbn. by rewrite Hf.
Qed.

Lemma update_keeps_files env id upd q :
  preserves (fun w => q ∈ files w) (Task_findByIdAndUpdate env id upd).
Proof.
  intros w Hw. unfold Task_findByIdAndUpdate.
  destruct (db_fault env (dbCalls w)); [done|]. by destruct (tasks w !! id).
Qed.

Lemma tryBlock_locals env taskId videoUrl w :
  recorded_paths env taskId videoUrl (fst (snd (tryBlock env taskId videoUrl (initial_locals, w)))).
Proof. run_try. all: split; cbn; auto. Qed.

Lemma catchBlock_locals env taskId e l w :
  fst (snd (catchBlock env taskId e (l, w))) = l.
Proof.
  unfold catchBlock, try_catch, bind, lift, ret. cbn.
  by destruct (Task_findByIdAndUpdate _ _ _ _) as [[?|?] ?].
Qed.

Lemma finallyBlock_keeps env taskId videoUrl l q :
  recorded_paths env taskId videoUrl l ->
  at_or_under (download_path env videoUrl taskId) q = false ->
  at_or_under (getFullAudioPath env (download_path env videoUrl taskId) "mp3") q = false ->
  at_or_under (chunk_dir env taskId) q = false ->
  forall w, q ∈ files w -> q ∈ files (snd (snd (finallyBlock env taskId (l, w)))).
Proof.
  intros [Hv Hf] Hq1 Hq2 Hq3 w Hw.
  assert (preserves (fun s : Frame => q ∈ files (snd s))
            (lift (cleanupFiles env [tempVideoPath l; tempFullPath l])
             >> lift (cleanupChunks env taskId))) as H.
  { apply preserves_bind; [|intros _]; apply (preserves_lift (fun w0 => q ∈ files w0)).
    - apply cleanupFiles_keeps. intros p [Hp|[Hp|[]]] _.
      + destruct Hv as [Hv|Hv]; rewrite Hv in Hp; [discriminate | by injection Hp as <-].
      + destruct Hf as [Hf|Hf]; rewrite Hf in Hp; [discriminate | by injection Hp as <-].
    - by apply cleanupChunks_keeps. }
  exact (H (l, w) Hw).
Qed.

(** X7.  A run removes nothing but its own temporary files: a file that is on
    disk before the run and lies neither at or below the download path, the
    audio path or the chunk directory of the task is still on disk after it,
    whichever calls fail. *)
Theorem run_removes_only_its_own_files env taskId videoUrl w q :
  q ∈ files w ->
  at_or_under (download_path env videoUrl taskId) q = false ->
  at_or_under (getFullAudioPath env (download_path env videoUrl taskId) "mp3") q = false ->
  at_or_under (chunk_dir env taskId) q = false ->
  q ∈ files (snd (processVideoTask env taskId videoUrl w)).
Proof.
  intros Hq H1 H2 H3.
  pose proof (tryBlock_locals env taskId videoUrl w) as Hl.
  assert (preserves (fun s : Frame => q ∈ files (snd s)) (tryBlock env taskId videoUrl)) as Ht.
  { apply (tryBlock_preserves (fun w0 => q ∈ files w0)); intros; try apply preserves_raised_by;
      auto using update_keeps_files, download_keeps, extract_keeps, split_keeps,
        transcribe_keeps. }
  specialize (Ht (initial_locals, w) Hq).
  rewrite processVideoTask_eq.
  destruct (tryBlock env taskId videoUrl (initial_locals, w)) as [[[]|e] [l1 w1]]; cbn in Hl, Ht.
  - pose proof (finallyBlock_keeps env taskId videoUrl l1 q Hl H1 H2 H3 w1 Ht) as Hfin.
    by destruct (finallyBlock env taskId (l1, w1)) as [[[]|e] [l2 w2]].
  - pose proof (catchBlock_locals env taskId e l1 w1) as Hlc.
    pose proof (catchBlock_preserves (fun w => q ∈ files w) env taskId e
                  (fun upd _ => update_keeps_files env taskId upd q) (l1, w1) Ht) as Hc.
    destruct (catchBlock env taskId e (l1, w1)) as [c [l2 w2]]. cbn in Hlc, Hc. subst l2.
    pose proof (finallyBlock_keeps env taskId videoUrl l1 q Hl H1 H2 H3 w2 Hc) as Hfin.
    by destruct (finallyBlock env taskId (l1, w2)) as [[[]|e'] [l3 w3]].
Qed.

(** ** What a run does when, and what it does not do *)

(** X8.  A run for an id that has no record downloads nothing: no outbound
    request is made, the collection is unchanged and no file is added. *)
Theorem missing_task_is_not_processed env taskId videoUrl w :
  tasks w !! taskId = None ->
  exists w' evs,
    processVideoTask env taskId videoUrl w = (Normal tt, w')
    /\ trace w' = (trace w ++ evs)%list
    /\ List.filter is_request evs = []
    /\ tasks w' = tasks w
    /\ files w' ⊆ files w.
Proof.
  intros Hnone.
  run_process.
  all: try congruence.
  all: eexists _, _; split; [reflexivity|];
    split; [normalize; rewrite <- ?app_assoc; reflexivity|].
  all: split; [reflexivity|]; split; [by normalize | done].
Qed.

Lemma filter_axios_requests (evs : list Event) :
  Forall is_transcription_request evs -> List.filter (request_to "axios") evs = [].
Proof.
  induction 1 as [|e evs [p ->] _ IH]; [reflexivity | exact IH].
Qed.

(** X9.  Work starts only after its status is on the record: in the events of a
    run the download request comes after the applied DOWNLOADING update and
    every transcription request after the applied TRANSCRIBING update; and
    the download is requested at most once. *)
Theorem stage_calls_follow_their_status env taskId videoUrl w :
  exists w' evs,
    processVideoTask env taskId videoUrl w = (Normal tt, w')
    /\ trace w' = (trace w ++ evs)%list
    /\ follows (persists taskId DOWNLOADING) (request_to "axios") evs = true
    /\ follows (persists taskId TRANSCRIBING) (request_to "groq") evs = true
    /\ length (List.filter (request_to "axios") evs) <= 1.
Proof.
  run_process.
  all: eexists _, _; split; [reflexivity|];
    split; [normalize; rewrite <- ?app_assoc; reflexivity|].
  all: split; [cbn; rewrite ?String.eqb_refl; reflexivity|].
  all: split; [cbn; rewrite ?String.eqb_refl; reflexivity|].
  all: rewrite ?List.filter_app;
    repeat match goal with
           | H : Forall is_transcription_request ?evs
             |- context [List.filter (request_to "axios") ?evs] =>
               rewrite (filter_axios_requests evs H)
           end; cbn; lia.
Qed.

(** ** The download *)

(** X10.  [downloadVideoFromUrl] resolves exactly when the server answers with a
    status in 200..299 and the stream is written to its end; it then
    returns the download path, the file is on disk, and one request was
    made.  Every other outcome rejects. *)
Theorem download_resolves_iff env videoUrl taskId w p w' :
  downloadVideoFromUrl env videoUrl taskId w = (Normal p, w')
  <-> (exists code, axios_get env (download_request env videoUrl) = AxResponse code StreamFinish
                    /\ (200 <= code < 300)%Z)
      /\ p = download_path env videoUrl taskId
      /\ w' = emit (EvRequest "axios" (download_request env videoUrl))
                (set_files (union {[download_path env videoUrl taskId]}) w).
Proof.
  unfold downloadVideoFromUrl, catch_and_log, try_catch, bind, fs_createWriteStream,
    fs_remove, fs_call, modify, throw, ret, download_failure.
  cbn.
  destruct (axios_get env (download_request env videoUrl)) as [code [|m|m]|code|m|m|m]; cbn.
  1-3: destruct (code <? 200)%Z eqn:Hlo; [|destruct (300 <=? code)%Z eqn:Hhi]; cbn.
  all: repeat (break_fault; cbn).
  all: split; [intros [= <- <-] | intros ((code' & [= <-] & Hc) & -> & ->)]; try lia.
  all: try discriminate.
  - split; [|done]. exists code. split; [done | lia].
  - reflexivity.
Qed.

(** X11.  The suffix of the download path has two to six characters: it is the
    extension of the URL path when that has two to six characters, and
    ".mp4" when the extension is empty, a lone dot, longer, or the URL does
    not parse. *)
Theorem download_suffix_bounds env videoUrl :
  2 <= String.length (download_suffix env videoUrl) <= 6
  /\ (download_suffix env videoUrl = ".mp4"
      \/ url_extname env videoUrl = Some (download_suffix env videoUrl))
  /\ (forall ext, url_extname env videoUrl = Some ext ->
        2 <= String.length ext <= 6 -> download_suffix env videoUrl = ext).
Proof.
  unfold download_suffix.
  destruct (url_extname env videoUrl) as [ext|]; [|cbn; split; [lia|]; split; [by left | done]].
  destruct (String.eqb_spec ext "") as [->|Hne]; cbn [negb andb].
  { cbn. split; [lia|]. split; [by left|]. intros ? [= <-]. cbn. lia. }
  destruct (Nat.ltb_spec 1 (String.length ext)) as [H1|H1]; cbn [andb].
  2:{ cbn. split; [lia|]. split; [by left|]. intros ? [= <-]. lia. }
  destruct (Nat.leb_spec (String.length ext) 6) as [H6|H6].
  - split; [lia|]. split; [by right|]. by intros ? [= <-].
  - cbn. split; [lia|]. split; [by left|]. intros ? [= <-]. lia.
Qed.

(** ** Splitting *)

Lemma insert_sorted_perm x l : Permutation (insert_sorted x l) (x :: l).
Proof.
  induction l as [|y l IH]; cbn; [done|].
  destruct (String.leb x y); [done|].
  rewrite IH. apply perm_swap.
Qed.

Lemma js_sort_perm l : Permutation (js_sort l) l.
Proof.
  induction l as [|x l IH]; cbn; [done|].
  rewrite insert_sorted_perm. by constructor.
Qed.

Lemma insert_sorted_sorted x l :
  Sorted (fun a b => String.leb a b = true) l ->
  Sorted (fun a b => String.leb a b = true) (insert_sorted x l).
Proof.
  induction 1 as [|y l Hs IH Hhd]; cbn; [by repeat constructor|].
  destruct (String.leb x y) eqn:Hxy.
  - constructor; [by constructor | by constructor].
  - constructor; [exact IH|].
    destruct (String.leb_total x y) as [H|H]; [congruence|].
    destruct l as [|z l]; cbn; [by constructor|].
    destruct (String.leb x z); constructor; [done|]. by inversion Hhd.
Qed.

Lemma js_sort_sorted l : Sorted (fun a b => String.leb a b = true) (js_sort l).
Proof.
  induction l as [|x l IH]; cbn; [constructor | by apply insert_sorted_sorted].
Qed.

(** X12.  When [splitAudio] resolves, ffmpeg ended without error and the list is
    never empty.  If the chunk directory holds files named chunk_*.mp3 the
    list is their paths in ascending order, each once; if it holds none, the
    list is the full audio file alone, and only when that file is below
    25 MB. *)
Theorem splitAudio_result env fullAudioPath taskId w chunks w' :
  splitAudio env fullAudioPath taskId w = (Normal chunks, w') ->
  exists names,
    ffmpeg_split env fullAudioPath = SplitEnd names
    /\ chunks <> []
    /\ (List.filter is_chunk_name names = [] ->
        chunks = [fullAudioPath] /\ (full_audio_size env fullAudioPath < size_limit)%Z)
    /\ (List.filter is_chunk_name names <> [] ->
        Sorted (fun a b => String.leb a b = true) chunks
        /\ Permutation chunks
             (map (path_join (chunk_dir env taskId)) (List.filter is_chunk_name names))).
Proof.
  unfold splitAudio, bind, fs_ensureDir, fs_call, modify, throw, ret.
  break_fault; cbn; [discriminate|].
  destruct (ffmpeg_split env fullAudioPath) as [names|msg names]; cbn; [|discriminate].
  pose proof (js_sort_perm (map (path_join (chunk_dir env taskId))
                              (List.filter is_chunk_name names))) as Hperm.
  pose proof (js_sort_sorted (map (path_join (chunk_dir env taskId))
                                (List.filter is_chunk_name names))) as Hsorted.
  destruct (js_sort _) as [|c cs] eqn:Hsort.
  - apply Permutation_nil in Hperm. apply map_eq_nil in Hperm.
    destruct (Z.ltb_spec (full_audio_size env fullAudioPath) size_limit); cbn; [|discriminate].
    intros [= <- <-]. exists names. repeat split; done.
  - cbn. intros [= <- <-]. exists names. split; [done|]. split; [done|].
    split; [|done]. intros Hnil. rewrite Hnil in Hperm. cbn in Hperm.
    by apply Permutation_nil_r in Hperm.
Qed.

(** ** Uploads *)

Lemma transcribe_chunk_calls env i p acc w :
  exists c w',
    transcribe_chunk env i p acc w = (c, w')
    /\ trace w'
       = (trace w ++ (if uploadable env i p
                      then [EvRequest "groq" (transcription_request p)] else []))%list.
Proof.
  unfold transcribe_chunk, uploadable, try_catch, bind, modify, throw, ret.
  destruct (chunk_stat env i p) as [size|msg]; cbn.
  2:{ exists (Normal acc), w. by rewrite app_nil_r. }
  destruct (size_limit <=? size)%Z; cbn.
  { exists (Normal acc), w. by rewrite app_nil_r. }
  destruct (size =? 0)%Z; cbn.
  { exists (Normal acc), w. by rewrite app_nil_r. }
  destruct (groq_create env i (transcription_request p)) as [[t|]|msg]; cbn.
  1: destruct (String.eqb t ""); cbn.
  all: by eexists _, _.
Qed.

Lemma transcribe_loop_calls env paths : forall i acc w,
  exists c w',
    transcribe_loop env i paths acc w = (c, w')
    /\ trace w' = (trace w ++ create_calls env i paths)%list.
Proof.
  induction paths as [|p rest IH]; intros i acc w; cbn [transcribe_loop].
  - exists (Normal acc), w. by rewrite app_nil_r.
  - unfold bind.
    destruct (transcribe_chunk_spec env (S i) p acc w) as (w0 & evs0 & E0 & _).
    destruct (transcribe_chunk_calls env (S i) p acc w) as (c1 & w1 & E1 & Ht1).
    rewrite E0 in E1. injection E1 as <- <-. rewrite E0.
    destruct (IH (S i) (acc +:+ spaced (if skipped env (S i) p then []
                                       else [transcript_of env (S i) p])) w0)
      as (c2 & w2 & -> & Ht2).
    exists c2, w2. split; [done|].
    rewrite Ht2, Ht1, <- app_assoc. f_equal.
    unfold create_calls. cbn [numbered List.filter fst snd].
    by destruct (uploadable env (S i) p).
Qed.

(** X13.  [transcribeAudio] calls [groq.audio.transcriptions.create] exactly
    once for every chunk whose size was read and is neither zero nor 25 MB
    or more, in the order of the chunks, and for no other chunk; it makes no
    call at all when the API key is missing.  (A call is one event; what the
    SDK resends inside a call is not counted.)  It writes neither to the disk
    nor to the task collection. *)
Theorem one_create_call_per_sound_chunk env (paths : list string) w :
  exists c w',
    transcribeAudio env paths w = (c, w')
    /\ files w' = files w /\ tasks w' = tasks w
    /\ trace w'
       = (trace w ++ (if api_key_configured (config env)
                      then create_calls env 0 paths else []))%list.
Proof.
  unfold transcribeAudio, bind, throw, ret.
  destruct (api_key_configured (config env)); cbn.
  - destruct (transcribe_loop_calls env paths 0 "" w) as (c & w' & E & Ht).
    destruct (transcribe_loop_spec env paths 0 "" w) as (w0 & evs0 & E0 & Hs & Hf & _).
    rewrite E0 in E. injection E as <- <-. rewrite E0.
    eexists _, _. split; [reflexivity|]. split; [exact Hf|]. split; [apply Hs | exact Ht].
  - eexists _, w. split; [reflexivity|]. by rewrite app_nil_r.
Qed.

(** ** Clean-up, exactly *)

(** X14.  When no file system call fails, [cleanupFiles] removes exactly what
    lies at or below one of the non-empty paths it is given, and
    [cleanupChunks] exactly what lies at or below the chunk directory of the
    task; every other file stays, and a second call with the same arguments
    changes nothing. *)
Theorem cleanup_removes_exactly env (filePaths : list Value) taskId w :
  (forall n, fs_fault env n = None) ->
  (exists w' w'',
     cleanupFiles env filePaths w = (Normal tt, w')
     /\ (forall q, q ∈ files w'
           <-> q ∈ files w
               /\ forall p, In (VStr p) filePaths -> p <> "" -> at_or_under p q = false)
     /\ cleanupFiles env filePaths w' = (Normal tt, w'')
     /\ files w'' = files w')
  /\ (exists w' w'',
        cleanupChunks env taskId w = (Normal tt, w')
        /\ (forall q, q ∈ files w'
              <-> q ∈ files w /\ at_or_under (chunk_dir env taskId) q = false)
        /\ cleanupChunks env taskId w' = (Normal tt, w'')
        /\ files w'' = files w').
Proof.
  intros Hn. split.
  - destruct (cleanupFiles_spec env filePaths w) as (w' & E & _ & _ & Hsub & Hgone).
    destruct (cleanupFiles_spec env filePaths w') as (w'' & E' & _ & _ & Hsub' & _).
    assert (forall q, q ∈ files w' ->
              forall p, In (VStr p) filePaths -> p <> "" -> at_or_under p q = false) as Hout.
    { intros q Hq p Hp Hne. apply (Hgone Hn p Hp); [|done].
      cbn. by destruct (String.eqb_spec p ""). }
    exists w', w''. split; [done|]. split; [|split; [done|]].
    + intros q. split; [intros Hq; split; [by apply Hsub | by apply Hout]|].
      intros [Hq Hp]. pose proof (cleanupFiles_keeps env filePaths q Hp w Hq) as Hk.
      by rewrite E in Hk.
    + apply set_eq. intros q. split; [apply Hsub'|].
      intros Hq. pose proof (cleanupFiles_keeps env filePaths q (Hout q Hq) w' Hq) as Hk.
      by rewrite E' in Hk.
  - destruct (cleanupChunks_spec env taskId w) as (w' & E & _ & _ & Hsub & Hgone).
    destruct (cleanupChunks_spec env taskId w') as (w'' & E' & _ & _ & Hsub' & _).
    exists w', w''. split; [done|]. split; [|split; [done|]].
    + intros q. split; [intros Hq; split; [by apply Hsub | by apply Hgone]|].
      intros [Hq Hp]. pose proof (cleanupChunks_keeps env taskId q Hp w Hq) as Hk.
      by rewrite E in Hk.
    + apply set_eq. intros q. split; [apply Hsub'|].
      intros Hq. pose proof (cleanupChunks_keeps env taskId q (Hgone Hn q Hq) w' Hq) as Hk.
      by rewrite E' in Hk.
Qed.

(** ** The schema defaults *)


(** ** Paths of different tasks *)

Lemma length_append (a b : string) :
  String.length (a +:+ b) = String.length a + String.length b.
Proof.
  induction a as [|x a IH]; [reflexivity|].
  rewrite append_cons. cbn. by rewrite IH.
Qed.

Lemma append_inv_head (a x y : string) : a +:+ x = a +:+ y -> x = y.
Proof.
  induction a as [|c a IH]; [done|].
  rewrite !append_cons. intros [= H]. by apply IH.
Qed.

(** Two ways of cutting one string: one head is the other, extended. *)
Lemma append_eq_cases (a b r1 r2 : string) :
  a +:+ r1 = b +:+ r2 ->
  exists u, (a = b +:+ u /\ r2 = u +:+ r1) \/ (b = a +:+ u /\ r1 = u +:+ r2).
Proof.
  revert b. induction a as [|x a IH]; intros b H.
  - exists b. right. done.
  - destruct b as [|y b].
    + exists (String x a). left. done.
    + rewrite !append_cons in H. injection H as -> H.
      destruct (IH b H) as (u & [[-> ->]|[-> ->]]); exists u; [left | right];
        by rewrite append_cons.
Qed.

Lemma download_suffix_length env videoUrl :
  2 <= String.length (download_suffix env videoUrl) <= 6.
Proof.
  unfold download_suffix.
  destruct (url_extname env videoUrl) as [ext|]; [|cbn; lia].
  destruct (String.eqb_spec ext "") as [->|Hne]; cbn [negb andb]; [cbn; lia|].
  destruct (Nat.ltb_spec 1 (String.length ext)) as [H1|H1]; cbn [andb]; [|cbn; lia].
  destruct (Nat.leb_spec (String.length ext) 6) as [H6|H6]; [lia | cbn; lia].
Qed.

(** A suffix of at most six characters after "_downloaded" cannot hide a
    second "_downloaded". *)
Lemma downloaded_overlap (u s1 s2 : string) :
  "_downloaded" +:+ s2 = u +:+ "_downloaded" +:+ s1 ->
  String.length s2 <= 6 -> u = "".
Proof.
  intros H Hlen.
  assert (String.length u + String.length s1 = String.length s2) as Hl.
  { apply (f_equal String.length) in H. rewrite !length_append in H. cbn in H. lia. }
  do 7 (destruct u as [|? u]; [done|];
        rewrite !append_cons in H; injection H as <- H; try discriminate H).
  cbn in Hl. lia.
Qed.

(** X16.  Different tasks never share a temporary path.  For task ids that
    are plain names (no path separator, as the generated ids are), different
    ids have different chunk directories and different download paths,
    whatever the two URLs and their extensions are. *)
Theorem tasks_have_their_own_paths env id1 id2 url1 url2 :
  plain_name id1 = true -> plain_name id2 = true ->
  id1 <> id2 ->
  chunk_dir env id1 <> chunk_dir env id2
  /\ download_path env url1 id1 <> download_path env url2 id2.
Proof.
  intros _ _ Hne.
  unfold chunk_dir, download_path, path_join. split; intros H; apply Hne.
  - do 2 apply append_inv_head in H.
    destruct (append_eq_cases _ _ _ _ H) as (u & [[-> Hu]|[-> Hu]]).
    all: apply (f_equal String.length) in Hu; rewrite length_append in Hu.
    all: destruct u; [by rewrite append_empty_r | cbn in Hu; lia].
  - do 2 apply append_inv_head in H.
    pose proof (download_suffix_length env url1) as [_ H1].
    pose proof (download_suffix_length env url2) as [_ H2].
    destruct (append_eq_cases _ _ _ _ H) as (u & [[-> Hu]|[-> Hu]]).
    all: apply downloaded_overlap in Hu; [|done]; subst u; by rewrite append_empty_r.
Qed.

(** X17.  The two audio helpers never name the same file for one input: when
    the stem of the base file name and the extension are plain names (no path
    separator), [getTempAudioPath] and [getFullAudioPath] differ. *)
Theorem audio_paths_differ env baseFilename extension :
  plain_name (path_stem env baseFilename) = true ->
  plain_name extension = true ->
  getTempAudioPath env baseFilename <> getFullAudioPath env baseFilename extension.
Proof.
  intros _ _.
  unfold getTempAudioPath, getFullAudioPath, path_join. intros H.
  do 3 apply append_inv_head in H. discriminate H.
Qed.

(** ** The artefacts of a successful run *)


(** ** The outcome of a run *)

Lemma split_exact env fullAudioPath taskId w :
  fs_fault env (fsCalls w) = None ->
  exists w',
    raised_by SplitAudio (splitAudio env fullAudioPath taskId) w
    = (split_completion env fullAudioPath taskId, w')
    /\ same_store w w' /\ trace w' = trace w.
Proof.
  intros Hn. rewrite raised_by_eq.
  unfold splitAudio, split_completion, bind, fs_ensureDir, fs_call, modify, throw, ret.
  rewrite Hn. cbn.
  destruct (ffmpeg_split env fullAudioPath) as [names|msg names]; cbn.
  1: destruct (js_sort _); [destruct (_ <? _)%Z|]; cbn.
  all: eexists; split; [reflexivity|]; by repeat split.
Qed.

(** As [step], with [splitAudio] run by the lemma [split_lemma], which tells
    how it completes when the file system does not fail. *)
Ltac step_exact split_lemma Hn :=
  match goal with
  | |- context [raised_by SplitAudio (splitAudio ?env ?p ?id) ?w] =>
      let w' := fresh "ws" in
      let Hs := fresh "Hs" in
      let Htr := fresh "Htr" in
      destruct (split_lemma env p id w (Hn _)) as (w' & -> & Hs & Htr);
      use_store Hs; cbn in Htr;
      match goal with
      | |- context [match ?c with Normal _ => _ | Throw _ => _ end] =>
          destruct c as [?chunks|?e] eqn:?
      end;
      cbn; normalize
  | _ => step
  end.


(** X19.  With a store and a file system that do not fail, the outcome of a
    run is decided by the first stage that fails: the task ends FAILED with
    "Task failed: " and the message of that stage, and DONE with a null error
    when no stage fails. *)
Theorem first_failure_decides_the_outcome env taskId videoUrl w t0 :
  (forall n, db_fault env n = None) ->
  (forall n, fs_fault env n = None) ->
  tasks w !! taskId = Some t0 ->
  exists w' t,
    processVideoTask env taskId videoUrl w = (Normal tt, w')
    /\ tasks w' !! taskId = Some t
    /\ match first_failure env taskId videoUrl with
       | Some msg => status t = FAILED /\ errorMessage t = Some ("Task failed: " +:+ msg)
       | None => status t = DONE /\ errorMessage t = None
       end.
Proof.
  intros Hdb Hfs Ht0.
  remember (first_failure env taskId videoUrl) as outcome eqn:Hout.
  unfold processVideoTask, try_finally, catchBlock; unfold try_catch.
  unfold tryBlock, bind, lift, assign, read, modify, gets, ret, throw, expect_task,
    Task_findByIdAndUpdate, initial_locals; cbn.
  repeat step_exact split_exact Hfs.
  all: try match goal with
           | H : db_fault _ _ = Some _ |- _ => rewrite Hdb in H; discriminate H
           end.
  all: try congruence.
  all: finish_run.
  all: eexists _, _; split; [reflexivity|]; split; [normalize; reflexivity|].
  all: subst outcome; unfold first_failure;
    repeat match goal with
           | H : ?x = _ |- context [match ?x with _ => _ end] => rewrite H
           | H : ?x = _ |- context [if ?x then _ else _] => rewrite H
           end; cbn; by split.
Qed.

(** ** The scenarios, evaluated *)

Ltac by_computation := refine (bool_decide_unpack _ _); vm_compute; exact I.

Ltac find_event := vm_compute; repeat (first [left; reflexivity | right]).

(** Witness of C1: the download times out. *)
Lemma stage_failure_witness :
  exists e l1 w1 w',
    tryBlock env_timeout "t1" url0 (initial_locals, world0) = (Throw e, (l1, w1))
    /\ origin e = InStage Download
    /\ processVideoTask env_timeout "t1" url0 world0 = (Normal tt, w')
    /\ task_status w' "t1" = Some FAILED.
Proof.
  destruct (tryBlock env_timeout "t1" url0 (initial_locals, world0))
    as [[[]|e] [l1 w1]] eqn:Htry.
  { exfalso. vm_compute in Htry. discriminate Htry. }
  assert (origin e = InStage Download) as Ho.
  { vm_compute in Htry. injection Htry as <- _ _. reflexivity. }
  destruct (stage_failure_marks_task_failed _ _ _ _ _ _ _ _ Htry Ho)
    as (w' & r & Hrun & _ & Hm).
  exists e, l1, w1, w'. repeat split; try assumption.
  cbn in Hm. destruct Hm as (_ & t & Ht & Hst & _).
  unfold task_status. rewrite Ht. cbn. by rewrite Hst.
Defined.

(** Counterexample to C2: the run ends DONE, yet the video it downloaded is
    still on disk, because its removal failed and the failure was logged. *)
Lemma failed_removal_leaves_video :
  exists w',
    processVideoTask env_remove_fails "t1" url0 world0 = (Normal tt, w')
    /\ task_status w' "t1" = Some DONE
    /\ "tmp/t1_downloaded.mp4" ∈ files w'
    /\ "tmp/t1_downloaded.mp4" ∉ files world0.
Proof.
  eexists. split; [vm_compute; reflexivity|].
  split; [vm_compute; reflexivity|].
  split; by_computation.
Qed.

(** No file system call fails, the extraction fails: the task is FAILED, the
    downloaded video is removed, the partial audio file stays. *)
Lemma failed_extraction_leaves_audio :
  exists w',
    processVideoTask env_extract_fails "t1" url0 world0 = (Normal tt, w')
    /\ task_status w' "t1" = Some FAILED
    /\ extraction_left_output env_extract_fails (download_path env_extract_fails url0 "t1") = true
    /\ "tmp/t1_downloaded_full_audio.mp3" ∈ files w'
    /\ "tmp/t1_downloaded.mp4" ∉ files w'.
Proof.
  eexists. split; [vm_compute; reflexivity|].
  split; [vm_compute; reflexivity|].
  split; [reflexivity|].
  split; by_computation.
Qed.

(** Witness of C2 as amended: no file system call fails. *)
Lemma cleanup_witness :
  (forall n, fs_fault env_ok n = None)
  /\ exists w',
      processVideoTask env_ok "t1" url0 world0 = (Normal tt, w')
      /\ files w' ⊆ files world0.
Proof.
  split; [reflexivity|].
  destruct (cleanup_runs_on_every_exit_path env_ok "t1" url0 world0)
    as (w' & evs & video & full & Hrun & _ & _ & Hfs).
  exists w'. split; [exact Hrun|].
  exact (proj2 (Hfs (fun _ => eq_refl)) eq_refl).
Defined.

(** Witness of C4: every stage succeeds, the transcript is "hello world". *)
Lemma happy_run_witness :
  exists l1 w1 w' t,
    tryBlock env_ok "t1" url0 (initial_locals, world0) = (Normal tt, (l1, w1))
    /\ processVideoTask env_ok "t1" url0 world0 = (Normal tt, w')
    /\ tasks w' !! "t1" = Some t
    /\ status t = DONE /\ errorMessage t = None /\ text t = None.
Proof.
  destruct (tryBlock env_ok "t1" url0 (initial_locals, world0))
    as [[[]|e] [l1 w1]] eqn:Htry.
  2:{ exfalso. vm_compute in Htry. discriminate Htry. }
  destruct (done_write_drops_transcript _ _ _ _ _ _ Htry)
    as (w' & t0 & t & transcript & Hrun & _ & H0 & Ht & Hst & Herr & Htext).
  exists l1, w1, w', t. repeat split; try assumption.
  rewrite Htext. vm_compute in H0. by injection H0 as <-.
Defined.

Example happy_run_evaluated :
  exists w',
    processVideoTask env_ok "t1" url0 world0 = (Normal tt, w')
    /\ In (EvUpdate "t1" (done_update (VStr "hello world")) Applied) (trace w')
    /\ tasks w' !! "t1"
       = Some (mkTask "t1" (Some "http://a.test/v.mp4") DONE None None 0 4)
    /\ files w' = ∅.
Proof.
  eexists. split; [vm_compute; reflexivity|].
  split; [find_event|]. split; vm_compute; reflexivity.
Qed.

(** Witness of C5: a well-formed request. *)
Lemma submit_witness :
  truthy (get_field "videoUrl" [("videoUrl", url0)]) = true
  /\ url_parses env_ok (get_field "videoUrl" [("videoUrl", url0)]) = true
  /\ exists w',
      submitTask env_ok [("videoUrl", url0)] world0
      = (Normal (mkResponse 500 [("message", VStr "Failed to create processing task.")], []),
         w')
      /\ tasks w' = tasks world0.
Proof.
  split; [reflexivity|]. split; [reflexivity|].
  apply submitTask_cannot_save; reflexivity.
Defined.

(** Counterexample to C6: the first chunk is over the limit, and the stage
    does not skip it and return: without an API key it fails as a whole. *)
Lemma missing_key_fails_the_stage :
  oversized env_no_key 1 "c1" = true
  /\ transcribeAudio env_no_key five_chunks world0
     = (Throw (stage_error Transcribe
                 "Transcription failed: Groq API Key is not configured."), world0).
Proof. split; reflexivity. Qed.

Example mixed_chunks_evaluated :
  exists w',
    transcribeAudio env_mixed five_chunks world0 = (Normal (VStr "hello world"), w')
    /\ remaining_transcripts env_mixed 0 five_chunks = ["hello"; "world"].
Proof. eexists. split; vm_compute; reflexivity. Qed.

(** Counterexample to C7: the run sends transcription requests that name
    no timeout. *)
Lemma transcription_requests_lack_timeout :
  exists w',
    processVideoTask env_ok "t1" url0 world0 = (Normal tt, w')
    /\ forallb carries_timeout (trace w') = false
    /\ In (EvRequest "groq" [("file", VStream "tmp/t1_chunks/chunk_000.mp3");
                             ("model", VStr "whisper-large-v3")]) (trace w').
Proof.
  eexists. split; [vm_compute; reflexivity|].
  split; [vm_compute; reflexivity | find_event].
Qed.

(** Witness of C7 as amended: the download gets no answer in time. *)
Lemma download_timeout_witness :
  tasks world0 !! "t1" = Some task0
  /\ db_fault env_timeout (dbCalls world0) = None
  /\ axios_get env_timeout (download_request env_timeout url0)
     = AxErrNoResponse "timeout of 120000ms exceeded"
  /\ db_fault env_timeout (S (dbCalls world0)) = None
  /\ exists w',
      processVideoTask env_timeout "t1" url0 world0 = (Normal tt, w')
      /\ task_status w' "t1" = Some FAILED.
Proof.
  assert (tasks world0 !! "t1" = Some task0) as H0 by (vm_compute; reflexivity).
  split; [exact H0|]. do 3 (split; [reflexivity|]).
  destruct (download_carries_timeout env_timeout "t1" url0 world0)
    as (w' & evs & Hrun & _ & _ & Hfail).
  destruct (Hfail task0 _ H0 eq_refl eq_refl eq_refl) as (t & Ht & Hst & _).
  exists w'. split; [exact Hrun|]. unfold task_status. rewrite Ht. cbn. by rewrite Hst.
Defined.

(** Witness of C8: scenario C of the specification. *)
Lemma register_twice_witness :
  exists r1 reg1 r2 reg2,
    Registry.register Registry.strip_slash
      (fun _ => Registry.Fetched (Registry.descriptor_v "1.0.0")) 1 "http://a.test/" ∅
    = inr (r1, reg1)
    /\ Registry.register Registry.strip_slash
         (fun _ => Registry.Fetched (Registry.descriptor_v "2.0.0")) 2 "http://a.test/" reg1
       = inr (r2, reg2)
    /\ Registry.list reg2 = [r2]
    /\ Registry.records_for "http://a.test" reg2 = [r2]
    /\ Registry.version (Registry.card r2) = "2.0.0"
    /\ Registry.registeredAt r2 = 1 /\ Registry.lastRefreshedAt r2 = 2.
Proof.
  destruct (register_twice_one_record Registry.strip_slash
              (fun _ => Registry.Fetched (Registry.descriptor_v "1.0.0"))
              (fun _ => Registry.Fetched (Registry.descriptor_v "2.0.0"))
              1 2 "http://a.test/" ∅ _ _ _ _ eq_refl eq_refl eq_refl eq_refl)
    as (r1 & reg1 & r2 & reg2 & H1 & H2 & Hrec & Hurl & Hcard & Hlast & Hreg).
  exists r1, reg1, r2, reg2.
  split; [exact H1|]. split; [exact H2|].
  vm_compute in H1. injection H1 as <- <-.
  vm_compute in H2. injection H2 as <- <-.
  repeat split; vm_compute; reflexivity.
Defined.


Example all_skipped_evaluated :
  exists w',
    processVideoTask env_all_skipped "t1" url0 world0 = (Normal tt, w')
    /\ In (EvUpdate "t1" (done_update (VStr "")) Applied) (trace w')
    /\ task_status w' "t1" = Some DONE.
Proof.
  eexists. split; [vm_compute; reflexivity|].
  split; [find_event | vm_compute; reflexivity].
Qed.

(** Witness of C10: null, undefined and a path that is not on disk. *)
Lemma cleanup_total_witness :
  Forall (fun v => truthy v = false \/ exists p, v = VStr p /\ on_disk p world0 = false)
    [VNull; VUndefined; VStr "tmp/nothing.mp4"]
  /\ on_disk (chunk_dir env_ok "t9") world0 = false
  /\ (exists w', cleanupFiles env_ok [VNull; VUndefined; VStr "tmp/nothing.mp4"] world0
                 = (Normal tt, w') /\ files w' = files world0)
  /\ (exists w', cleanupChunks env_ok "t9" world0 = (Normal tt, w')
                 /\ files w' = files world0).
Proof.
  assert (Forall (fun v => truthy v = false
                           \/ exists p, v = VStr p /\ on_disk p world0 = false)
            [VNull; VUndefined; VStr "tmp/nothing.mp4"]) as Hl.
  { constructor; [by left|]. constructor; [by left|].
    constructor; [right; by eexists | constructor]. }
  assert (on_disk (chunk_dir env_ok "t9") world0 = false) as Hd by reflexivity.
  split; [exact Hl|]. split; [exact Hd|].
  destruct (cleanup_never_throws env_ok "t9" [VNull; VUndefined; VStr "tmp/nothing.mp4"]
              initial_locals world0)
    as ((w1 & Hrun1 & _ & Hf1) & (w2 & Hrun2 & _ & Hf2) & _).
  split; [exists w1 | exists w2]; auto.
Defined.

Lemma status_read_back_witness :
  exists t w1 w2,
    Task_findByIdAndUpdate env_ok "t1" [("status", VStr DOWNLOADING)] world0
    = (Normal (Some t), w1)
    /\ getTaskStatus no_faults "t1" w1
       = (Normal (mkResponse 200 [("taskId", VStr "t1"); ("status", VStr DOWNLOADING);
                                  ("updatedAt", VNum 1)]), w2).
Proof.
  exact (status_endpoint_reads_back_update env_ok no_faults "t1" DOWNLOADING world0 task0
           eq_refl eq_refl eq_refl).
Defined.



Lemma other_task_witness :
  tasks (snd (processVideoTask env_ok "t1" url0 world_two)) !! "t2" = Some task_other.
Proof.
  rewrite (run_touches_no_other_task env_ok "t1" url0 world_two "t2"); [reflexivity|].
  left. discriminate.
Defined.

Lemma identity_witness :
  exists t', tasks (snd (processVideoTask env_ok "t1" url0 world0)) !! "t1" = Some t'
    /\ _id t' = "t1" /\ url t' = Some "http://a.test/v.mp4" /\ text t' = None
    /\ createdAt t' = 0.
Proof.
  exact (run_keeps_identity_of_its_task env_ok "t1" url0 world0 task0 eq_refl).
Defined.

Lemma own_files_witness :
  "tmp/notes.txt" ∈ files (snd (processVideoTask env_remove_fails "t1" url0 world_two)).
Proof.
  apply run_removes_only_its_own_files.
  - by_computation.
  - reflexivity.
  - reflexivity.
  - reflexivity.
Defined.

Lemma missing_task_witness :
  exists w' evs,
    processVideoTask env_ok "t9" url0 world0 = (Normal tt, w')
    /\ trace w' = (trace world0 ++ evs)%list
    /\ List.filter is_request evs = []
    /\ tasks w' = tasks world0
    /\ files w' ⊆ files world0.
Proof.
  apply missing_task_is_not_processed. reflexivity.
Defined.

Lemma split_witness :
  exists chunks w',
    splitAudio env_ok "tmp/t1_downloaded_full_audio.mp3" "t1" world0 = (Normal chunks, w')
    /\ chunks = ["tmp/t1_chunks/chunk_000.mp3"; "tmp/t1_chunks/chunk_001.mp3"]
    /\ exists names,
         ffmpeg_split env_ok "tmp/t1_downloaded_full_audio.mp3" = SplitEnd names
         /\ chunks <> []
         /\ (List.filter is_chunk_name names = [] ->
             chunks = ["tmp/t1_downloaded_full_audio.mp3"]
             /\ (full_audio_size env_ok "tmp/t1_downloaded_full_audio.mp3" < size_limit)%Z)
         /\ (List.filter is_chunk_name names <> [] ->
             Sorted (fun a b => String.leb a b = true) chunks
             /\ Permutation chunks
                  (map (path_join (chunk_dir env_ok "t1")) (List.filter is_chunk_name names))).
Proof.
  destruct (splitAudio env_ok "tmp/t1_downloaded_full_audio.mp3" "t1" world0)
    as [[chunks|e] w'] eqn:E; [|exfalso; vm_compute in E; discriminate E].
  exists chunks, w'. split; [reflexivity|].
  split; [vm_compute in E; by injection E as <- _|].
  exact (splitAudio_result _ _ _ _ _ _ E).
Defined.

Lemma cleanup_exact_witness :
  (exists w' w'',
     cleanupFiles env_ok [VStr "tmp/a.mp4"; VNull; VStr "tmp/t1_chunks"] world_files = (Normal tt, w')
     /\ (forall q, q ∈ files w'
           <-> q ∈ files world_files
               /\ forall p, In (VStr p) [VStr "tmp/a.mp4"; VNull; VStr "tmp/t1_chunks"] -> p <> "" ->
                            at_or_under p q = false)
     /\ cleanupFiles env_ok [VStr "tmp/a.mp4"; VNull; VStr "tmp/t1_chunks"] w' = (Normal tt, w'')
     /\ files w'' = files w')
  /\ (exists w' w'',
        cleanupChunks env_ok "t1" world_files = (Normal tt, w')
        /\ (forall q, q ∈ files w'
              <-> q ∈ files world_files /\ at_or_under (chunk_dir env_ok "t1") q = false)
        /\ cleanupChunks env_ok "t1" w' = (Normal tt, w'')
        /\ files w'' = files w').
Proof.
  apply cleanup_removes_exactly. intros n. reflexivity.
Defined.


Lemma outcome_witness :
  exists w' t,
    processVideoTask env_extract_fails "t1" url0 world0 = (Normal tt, w')
    /\ tasks w' !! "t1" = Some t
    /\ status t = FAILED
    /\ errorMessage t = Some "Task failed: ffmpeg error: Conversion failed!".
Proof.
  destruct (first_failure_decides_the_outcome env_extract_fails "t1" url0 world0 task0
              (fun _ => eq_refl) (fun _ => eq_refl) eq_refl) as (w' & t & Hrun & Ht & Hout).
  exists w', t. split; [exact Hrun|]. split; [exact Ht|]. exact Hout.
Defined.

Lemma own_paths_witness :
  chunk_dir env_ok "t1" <> chunk_dir env_ok "t2"
  /\ download_path env_ok url0 "t1" <> download_path env_ok (VStr "http://b.test/w.webm") "t2".
Proof.
  apply tasks_have_their_own_paths; [reflexivity | reflexivity | discriminate].
Defined.

Example create_calls_evaluated :
  create_calls env_mixed 0 five_chunks
  = [EvRequest "groq" (transcription_request "c3");
     EvRequest "groq" (transcription_request "c4");
     EvRequest "groq" (transcription_request "c5")].
Proof. reflexivity. Qed.

Lemma audio_paths_witness :
  getTempAudioPath env_ok "tmp/t1_downloaded.mp4"
  <> getFullAudioPath env_ok "tmp/t1_downloaded.mp4" "mp3".
Proof.
  apply audio_paths_differ; reflexivity.
Defined.
